(** * chardev: a single-slot character device

    A shallow embedding of [chardev_lkm/chardev.c].  The module's globals
    become one record that every entry point receives and returns; the
    kernel services the module calls ([copy_to_user], [sprintf], [strlen],
    the registration calls, the error-pointer helpers) are modelled next to
    it.  [printk] lines are omitted: nothing reads the log back. *)

From Stdlib Require Import ZArith List Lia Bool.
From Stdlib Require Import Strings.Byte.
From Stdlib Require Import String.
Import ListNotations.
Local Open Scope Z_scope.

(* [String] has a [length] of its own; here it is the one of lists. *)
Local Abbreviation length := Datatypes.length.

(** ** C integer types *)

Module CTypes.

(** Value of [z] once stored in a signed integer of [bits] bits. *)
Definition wrap_signed (bits z : Z) : Z :=
  (z + 2 ^ (bits - 1)) mod 2 ^ bits - 2 ^ (bits - 1).

(** Value of [z] once stored in an unsigned integer of [bits] bits. *)
Definition wrap_unsigned (bits z : Z) : Z := z mod 2 ^ bits.

Definition to_short (z : Z) : Z := wrap_signed 16 z.
Definition to_int (z : Z) : Z := wrap_signed 32 z.
Definition to_long (z : Z) : Z := wrap_signed 64 z.
Definition to_ssize_t (z : Z) : Z := wrap_signed 64 z.
Definition to_ulong (z : Z) : Z := wrap_unsigned 64 z.
Definition to_size_t (z : Z) : Z := wrap_unsigned 64 z.

Definition INT_MAX : Z := 2 ^ 31 - 1.
Definition SSIZE_MAX : Z := 2 ^ 63 - 1.

End CTypes.
Import CTypes.

(** ** C strings, [strlen] and the [sprintf] call of [dev_write] *)

Module CString.

Definition NUL : byte := x00.

(** A string literal as the bytes it stands for (without terminator). *)
Definition bytes (s : string) : list byte := list_byte_of_string s.

Definition nonzero (c : byte) : Prop := c <> NUL.

(** [strlen]: the number of bytes before the first zero byte.  Memory is a
    finite list here; where it ends, a zero byte is taken to follow. *)
Fixpoint strlen (s : list byte) : nat :=
  match s with
  | [] => O
  | c :: s' => if Byte.eqb c NUL then O else S (strlen s')
  end.

(** What the conversion [%s] emits for the memory [s]: the bytes before the
    first zero byte. *)
Fixpoint c_str (s : list byte) : list byte :=
  match s with
  | [] => []
  | c :: s' => if Byte.eqb c NUL then [] else c :: c_str s'
  end.

Definition digit (d : Z) : byte :=
  match d with
  | 0 => "0" | 1 => "1" | 2 => "2" | 3 => "3" | 4 => "4"
  | 5 => "5" | 6 => "6" | 7 => "7" | 8 => "8" | _ => "9"
  end%byte.

(** Digits are produced from the least significant one, each put in front
    of those already there; a 64-bit value has at most 20 of them. *)
Fixpoint put_dec (fuel : nat) (n : Z) (acc : list byte) : list byte :=
  match fuel with
  | O => acc
  | S fuel' =>
      let acc' := digit (n mod 10) :: acc in
      if n / 10 =? 0 then acc' else put_dec fuel' (n / 10) acc'
  end.

(** What the conversion [%zu] emits for the [size_t] value [n]. *)
Definition decimal (n : Z) : list byte := put_dec 20 (to_size_t n) [].

(** Reading a digit string back, to state that [decimal] is right. *)
Definition digit_value (c : byte) : Z := Z.of_N (Byte.to_N c) - 48.

Definition dec_value (s : list byte) : Z :=
  fold_left (fun acc c => 10 * acc + digit_value c) s 0.

(** [sprintf(dst, ...)] where the expanded format is [out]: [out] and a
    terminating zero byte are stored from [dst[0]] on and the rest of the
    array keeps its bytes.  There is no bound in [sprintf]: when [out] and
    its terminator do not fit the array the call stores past its end, which
    is reported as [None]. *)
Definition sprintf (dst out : list byte) : option (list byte) :=
  if (length out + 1 <=? length dst)%nat
  then Some (out ++ NUL :: skipn (length out + 1) dst)
  else None.

End CString.
Import CString.

(** ** The module's globals *)

Definition DEVICE_NAME : string := "chardev".
Definition CLASS_NAME : string := "chard".
Definition MESSAGE_SIZE : nat := 256.

Record chardev : Type := mkChardev {
  major_num : Z;              (* static int major_num *)
  message : list byte;        (* static char message[256] *)
  size_of_message : Z;        (* static short size_of_message *)
  open_num : Z;               (* static int open_num *)
  chardev_class : Z;          (* static struct class *chardev_class *)
  chardev_device : Z          (* static struct device *chardev_device *)
}.

(** The globals as the loader leaves them: zero-initialised. *)
Definition module_loaded : chardev :=
  {| major_num := 0;
     message := repeat NUL MESSAGE_SIZE;
     size_of_message := 0;
     open_num := 0;
     chardev_class := 0;
     chardev_device := 0 |}.

Definition set_major_num (v : Z) (st : chardev) : chardev :=
  mkChardev v (message st) (size_of_message st) (open_num st)
            (chardev_class st) (chardev_device st).

Definition set_message (v : list byte) (st : chardev) : chardev :=
  mkChardev (major_num st) v (size_of_message st) (open_num st)
            (chardev_class st) (chardev_device st).

Definition set_size_of_message (v : Z) (st : chardev) : chardev :=
  mkChardev (major_num st) (message st) v (open_num st)
            (chardev_class st) (chardev_device st).

Definition set_open_num (v : Z) (st : chardev) : chardev :=
  mkChardev (major_num st) (message st) (size_of_message st) v
            (chardev_class st) (chardev_device st).

Definition set_chardev_class (v : Z) (st : chardev) : chardev :=
  mkChardev (major_num st) (message st) (size_of_message st) (open_num st)
            v (chardev_device st).

Definition set_chardev_device (v : Z) (st : chardev) : chardev :=
  mkChardev (major_num st) (message st) (size_of_message st) (open_num st)
            (chardev_class st) v.

(** The message slot is well formed when the array has its declared size
    and the valid length lies within it. *)
Definition slot_inv (st : chardev) : Prop :=
  length (message st) = MESSAGE_SIZE /\
  0 <= size_of_message st <= Z.of_nat MESSAGE_SIZE.

(** The unread content of the slot: its first [size_of_message] bytes. *)
Definition valid_bytes (st : chardev) : list byte :=
  firstn (Z.to_nat (size_of_message st)) (message st).

(** The loaded module with [s] as the unread content of its slot. *)
Definition slot_holding (s : list byte) : chardev :=
  set_size_of_message (Z.of_nat (length s))
    (set_message (s ++ repeat NUL (MESSAGE_SIZE - length s)) module_loaded).

(** ** The caller's side of a read *)

Module Uaccess.

Definition EFAULT : Z := 14.

(** The destination a caller hands to [read]: how many bytes from the
    pointer on are writable, and what the kernel has stored there. *)
Record user_buffer : Type := mkUserBuffer {
  writable : Z;
  stored : list byte
}.

(** Kernel service, not part of this module's source; modelled by its
    contract: the bytes of [from] are copied while the destination is
    writable, and the number of bytes that could not be copied is returned
    (0 on success). *)
Definition copy_to_user (to : user_buffer) (from : list byte) (n : Z)
  : user_buffer * Z :=
  let count := to_ulong n in
  let copied := Z.max 0 (Z.min count (writable to)) in
  (mkUserBuffer (writable to)
                (firstn (Z.to_nat copied) from
                 ++ skipn (Z.to_nat copied) (stored to)),
   count - copied).

End Uaccess.
Import Uaccess.

(** ** The four file operations *)

(** [dev_open]: [open_num++; return 0;] *)
Definition dev_open (st : chardev) : chardev * Z :=
  (set_open_num (to_int (open_num st + 1)) st, 0).

(** [dev_read]: the requested length [len] and the offset are not used.
    On success the function ends with [return (size_of_message = 0);]. *)
Definition dev_read (st : chardev) (buffer : user_buffer) (len : Z)
  : chardev * user_buffer * Z :=
  let '(buffer', not_copied) :=
    copy_to_user buffer (message st) (size_of_message st) in
  let error_count := to_int not_copied in
  if error_count =? 0
  then (set_size_of_message 0 st, buffer', 0)
  else (st, buffer', - EFAULT).

(** What [sprintf(message, "%s (%zu letters)", buffer, len)] expands to. *)
Definition annotation (len : Z) : list byte :=
  bytes " (" ++ decimal len ++ bytes " letters)".

Definition format_message (buffer : list byte) (len : Z) : list byte :=
  c_str buffer ++ annotation len.

(** The slot after a write: either the globals with the new message, or
    the report that [sprintf] stored [emitted] and a terminator in the
    256-byte array, past its end. *)
Inductive slot_result : Type :=
| Stored (st : chardev)
| Overrun (emitted : list byte).

(** [dev_write]: [buffer] is the caller's memory at the pointer passed in.
    The value returned is [len] in either case: no statement changes it. *)
Definition dev_write (st : chardev) (buffer : list byte) (len : Z)
  : slot_result * Z :=
  let out := format_message buffer len in
  match sprintf (message st) out with
  | Some message' =>
      (Stored (set_size_of_message
                 (to_short (Z.of_nat (strlen message')))
                 (set_message message' st)),
       to_ssize_t len)
  | None => (Overrun out, to_ssize_t len)
  end.

(** [dev_release]: [return 0;] *)
Definition dev_release (st : chardev) : chardev * Z := (st, 0).

(** [n] calls of [dev_open] in a row, with the values they returned. *)
Fixpoint open_times (n : nat) (st : chardev) : chardev * list Z :=
  match n with
  | O => (st, [])
  | S n' =>
      let '(st1, r) := dev_open st in
      let '(st2, rs) := open_times n' st1 in
      (st2, r :: rs)
  end.

(** The calls a caller can make, and the slot after each.  A write that
    runs past the array leaves no slot to speak of. *)
Inductive operation : Type :=
| Open
| Read (buffer : user_buffer) (len : Z)
| Write (buffer : list byte) (len : Z)
| Release.

Definition step (st : chardev) (o : operation) : option chardev :=
  match o with
  | Open => Some (fst (dev_open st))
  | Read buffer len => Some (fst (fst (dev_read st buffer len)))
  | Write buffer len =>
      match fst (dev_write st buffer len) with
      | Stored st' => Some st'
      | Overrun _ => None
      end
  | Release => Some (fst (dev_release st))
  end.

(** A sequence of calls, one after the other, as long as there is a
    slot to go on with. *)
Fixpoint run (st : chardev) (ops : list operation) : option chardev :=
  match ops with
  | [] => Some st
  | o :: ops' =>
      match step st o with
      | Some st' => run st' ops'
      | None => None
      end
  end.

(** What the code keeps true of the slot besides its size: the array
    holds a terminated string, and the valid length is either 0 (nothing
    written yet, or read since) or the length of that string. *)
Definition slot_sound (st : chardev) : Prop :=
  length (message st) = MESSAGE_SIZE /\
  (strlen (message st) < MESSAGE_SIZE)%nat /\
  (size_of_message st = 0 \/
   size_of_message st = Z.of_nat (strlen (message st))).

Definition is_open_or_release (o : operation) : bool :=
  match o with
  | Open | Release => true
  | Read _ _ | Write _ _ => false
  end.

(** ** Registration with the kernel *)

Module Kernel.

(** Error pointers, from the kernel's [linux/err.h] (not part of this
    module's source): a pointer whose address lies in the last [MAX_ERRNO]
    values of the address space carries a negative errno. *)
Definition MAX_ERRNO : Z := 4095.

Definition IS_ERR (ptr : Z) : bool :=
  to_ulong (- MAX_ERRNO) <=? to_ulong ptr.

Definition PTR_ERR (ptr : Z) : Z := to_long ptr.

(** [MKDEV(ma, mi)], from [linux/kdev_t.h]: 20 bits of minor number.  The
    shift is made on an [int] and the result handed over as a [dev_t],
    which has 32 bits: the value is the one the kernel receives, so that
    major numbers from 4096 on lose their high bits. *)
Definition MINORBITS : Z := 20.

Definition to_dev_t (z : Z) : Z := wrap_unsigned 32 z.

Definition MKDEV (ma mi : Z) : Z :=
  to_dev_t (Z.lor (Z.shiftl ma MINORBITS) mi).

(** The registration calls the module makes, as the kernel sees them. *)
Inductive kcall : Type :=
| RegisterChrdev (major : Z) (name : string)
| UnregisterChrdev (major : Z) (name : string)
| ClassCreate (name : string)
| ClassUnregister (cls : Z)
| ClassDestroy (cls : Z)
| DeviceCreate (cls devt : Z) (name : string)
| DeviceDestroy (cls devt : Z).

(** What the kernel answers to the three calls that can fail:
    [register_chrdev] returns the major number or a negative errno,
    [class_create] and [device_create] a pointer or an error pointer. *)
Record kernel : Type := mkKernel {
  register_chrdev_answer : Z;
  class_create_answer : Z;
  device_create_answer : Z
}.

(** The module's globals together with the calls made so far, oldest
    first. *)
Record world : Type := mkWorld {
  globals : chardev;
  calls : list kcall
}.

(** Code that reads and writes the globals and calls the kernel. *)
Definition K (A : Type) : Type := world -> A * world.

Definition kret {A : Type} (a : A) : K A := fun w => (a, w).

Definition kbind {A B : Type} (c : K A) (f : A -> K B) : K B :=
  fun w => let '(a, w') := c w in f a w'.

Definition load {A : Type} (field : chardev -> A) : K A :=
  fun w => (field (globals w), w).

Definition store (update : chardev -> chardev) : K unit :=
  fun w => (tt, mkWorld (update (globals w)) (calls w)).

Definition call (e : kcall) : K unit :=
  fun w => (tt, mkWorld (globals w) (calls w ++ [e])).

Declare Scope kernel_scope.
Delimit Scope kernel_scope with K.

Notation "x <- c ;; k" := (kbind c (fun x => k))
  (at level 61, c at next level, right associativity) : kernel_scope.
Notation "c ;; k" := (kbind c (fun _ => k))
  (at level 61, right associativity) : kernel_scope.

Local Open Scope kernel_scope.

Definition register_chrdev (k : kernel) (major : Z) (name : string) : K Z :=
  call (RegisterChrdev major name) ;;
  kret (to_int (register_chrdev_answer k)).

Definition unregister_chrdev (major : Z) (name : string) : K unit :=
  call (UnregisterChrdev major name).

Definition class_create (k : kernel) (name : string) : K Z :=
  call (ClassCreate name) ;;
  kret (to_ulong (class_create_answer k)).

Definition class_unregister (cls : Z) : K unit := call (ClassUnregister cls).

Definition class_destroy (cls : Z) : K unit := call (ClassDestroy cls).

Definition device_create (k : kernel) (cls devt : Z) (name : string) : K Z :=
  call (DeviceCreate cls devt name) ;;
  kret (to_ulong (device_create_answer k)).

Definition device_destroy (cls devt : Z) : K unit :=
  call (DeviceDestroy cls devt).

(** [chardev_init]: the value returned is an [int]. *)
Definition chardev_init (k : kernel) : K Z :=
  r <- register_chrdev k 0 DEVICE_NAME ;;
  store (set_major_num r) ;;
  major <- load major_num ;;
  if major <? 0 then
    kret major
  else
    c <- class_create k CLASS_NAME ;;
    store (set_chardev_class c) ;;
    cls <- load chardev_class ;;
    if IS_ERR cls then
      major <- load major_num ;;
      unregister_chrdev major DEVICE_NAME ;;
      cls <- load chardev_class ;;
      kret (to_int (PTR_ERR cls))
    else
      major <- load major_num ;;
      d <- device_create k cls (MKDEV major 0) DEVICE_NAME ;;
      store (set_chardev_device d) ;;
      dev <- load chardev_device ;;
      if IS_ERR dev then
        cls <- load chardev_class ;;
        class_destroy cls ;;
        major <- load major_num ;;
        unregister_chrdev major DEVICE_NAME ;;
        dev <- load chardev_device ;;
        kret (to_int (PTR_ERR dev))
      else
        kret 0.

(** [chardev_exit] *)
Definition chardev_exit : K unit :=
  cls <- load chardev_class ;;
  major <- load major_num ;;
  device_destroy cls (MKDEV major 0) ;;
  cls <- load chardev_class ;;
  class_unregister cls ;;
  cls <- load chardev_class ;;
  class_destroy cls ;;
  major <- load major_num ;;
  unregister_chrdev major DEVICE_NAME.

(** Reading a list of calls. *)
Definition releases_major (major : Z) (e : kcall) : bool :=
  match e with
  | UnregisterChrdev m _ => m =? major
  | _ => false
  end.

Definition releases_class (cls : Z) (e : kcall) : bool :=
  match e with
  | ClassDestroy c => c =? cls
  | _ => false
  end.

Definition creates_device (e : kcall) : bool :=
  match e with
  | DeviceCreate _ _ _ => true
  | _ => false
  end.

Definition times (p : kcall -> bool) (l : list kcall) : nat :=
  length (filter p l).

End Kernel.
Import Kernel.

(** * Properties *)

(** ** Integer conversions that lose nothing *)

Section Conversions.

Lemma to_short_small (z : Z) : - 2 ^ 15 <= z < 2 ^ 15 -> to_short z = z.
Proof.
  intros Hz. unfold to_short, wrap_signed.
  rewrite Z.mod_small; change (2 ^ (16 - 1)) with (2 ^ 15);
    change (2 ^ 16) with (2 * 2 ^ 15); lia.
Qed.

Lemma to_int_small (z : Z) : - 2 ^ 31 <= z < 2 ^ 31 -> to_int z = z.
Proof.
  intros Hz. unfold to_int, wrap_signed.
  rewrite Z.mod_small; change (2 ^ (32 - 1)) with (2 ^ 31);
    change (2 ^ 32) with (2 * 2 ^ 31); lia.
Qed.

Lemma to_ssize_t_small (z : Z) : - 2 ^ 63 <= z < 2 ^ 63 -> to_ssize_t z = z.
Proof.
  intros Hz. unfold to_ssize_t, wrap_signed.
  rewrite Z.mod_small; change (2 ^ (64 - 1)) with (2 ^ 63);
    change (2 ^ 64) with (2 * 2 ^ 63); lia.
Qed.

Lemma to_ulong_small (z : Z) : 0 <= z < 2 ^ 64 -> to_ulong z = z.
Proof. intros Hz. unfold to_ulong, wrap_unsigned. now apply Z.mod_small. Qed.

Lemma to_ulong_range (z : Z) : 0 <= to_ulong z < 2 ^ 64.
Proof. unfold to_ulong, wrap_unsigned. apply Z.mod_pos_bound. lia. Qed.

Lemma to_int_range (z : Z) : - 2 ^ 31 <= to_int z < 2 ^ 31.
Proof.
  unfold to_int, wrap_signed. change (2 ^ (32 - 1)) with (2 ^ 31).
  change (2 ^ 32) with (2 * 2 ^ 31).
  pose proof (Z.mod_pos_bound (z + 2 ^ 31) (2 * 2 ^ 31)). lia.
Qed.

End Conversions.

(** ** C strings *)

Section Strings.

Lemma eqb_NUL_false (c : byte) : nonzero c -> Byte.eqb c NUL = false.
Proof.
  intros Hc. destruct (Byte.eqb c NUL) eqn:E; [|reflexivity].
  apply Byte.byte_dec_bl in E. contradiction.
Qed.

Lemma strlen_terminated (s rest : list byte) :
  Forall nonzero s -> strlen (s ++ NUL :: rest) = length s.
Proof.
  induction 1 as [|c s Hc _ IH]; simpl.
  - reflexivity.
  - rewrite (eqb_NUL_false c Hc). now rewrite IH.
Qed.

Lemma c_str_terminated (s rest : list byte) :
  Forall nonzero s -> c_str (s ++ NUL :: rest) = s.
Proof.
  induction 1 as [|c s Hc _ IH]; simpl.
  - reflexivity.
  - rewrite (eqb_NUL_false c Hc). now rewrite IH.
Qed.

Lemma c_str_whole (s : list byte) : Forall nonzero s -> c_str s = s.
Proof.
  induction 1 as [|c s Hc _ IH]; simpl.
  - reflexivity.
  - rewrite (eqb_NUL_false c Hc). now rewrite IH.
Qed.

Lemma c_str_nonzero (s : list byte) : Forall nonzero (c_str s).
Proof.
  induction s as [|c s IH]; simpl.
  - constructor.
  - destruct (Byte.eqb c NUL) eqn:E.
    + constructor.
    + constructor; [|exact IH]. now apply Byte.eqb_false.
Qed.

Lemma c_str_length (s : list byte) : length (c_str s) = strlen s.
Proof.
  induction s as [|c s IH]; simpl; [reflexivity|].
  destruct (Byte.eqb c NUL); simpl; congruence.
Qed.

(** [%s] never looks past the first zero byte. *)
Lemma c_str_stops (s rest rest' : list byte) :
  c_str (c_str s ++ NUL :: rest) = c_str (c_str s ++ NUL :: rest').
Proof. now rewrite !c_str_terminated by apply c_str_nonzero. Qed.

Lemma digit_nonzero (d : Z) : nonzero (digit d).
Proof.
  unfold nonzero, digit.
  destruct d as [|p|p]; try discriminate.
  do 4 (destruct p as [p|p|]; try discriminate).
Qed.

Lemma digit_value_digit (d : Z) : 0 <= d <= 9 -> digit_value (digit d) = d.
Proof.
  intros Hd.
  assert (Hcases : d = 0 \/ d = 1 \/ d = 2 \/ d = 3 \/ d = 4 \/
                   d = 5 \/ d = 6 \/ d = 7 \/ d = 8 \/ d = 9) by lia.
  repeat (destruct Hcases as [-> | Hcases]; [reflexivity|]).
  now subst d.
Qed.

Lemma put_dec_nonzero (fuel : nat) :
  forall n acc, Forall nonzero acc -> Forall nonzero (put_dec fuel n acc).
Proof.
  induction fuel as [|fuel IH]; intros n acc Hacc; simpl.
  - exact Hacc.
  - assert (Forall nonzero (digit (n mod 10) :: acc))
      by (constructor; [apply digit_nonzero | exact Hacc]).
    destruct (n / 10 =? 0); [assumption | now apply IH].
Qed.

Lemma put_dec_length (fuel : nat) :
  forall n acc,
    (length acc + Nat.min 1 fuel <= length (put_dec fuel n acc)
     <= length acc + fuel)%nat.
Proof.
  induction fuel as [|fuel IH]; intros n acc; simpl.
  - lia.
  - destruct (n / 10 =? 0); simpl.
    + lia.
    + specialize (IH (n / 10) (digit (n mod 10) :: acc)). simpl in IH. lia.
Qed.

Lemma put_dec_value (fuel : nat) :
  forall n acc,
    0 <= n < 10 ^ Z.of_nat fuel ->
    fold_left (fun a c => 10 * a + digit_value c) (put_dec fuel n acc) 0 =
    fold_left (fun a c => 10 * a + digit_value c) acc n.
Proof.
  induction fuel as [|fuel IH]; intros n acc Hn.
  - simpl in *. f_equal. lia.
  - rewrite Nat2Z.inj_succ, Z.pow_succ_r in Hn by lia.
    pose proof (Z.mod_pos_bound n 10 ltac:(lia)) as Hm.
    pose proof (Z.div_mod n 10 ltac:(lia)) as Hdm.
    cbn [put_dec]. destruct (n / 10 =? 0) eqn:E.
    + apply Z.eqb_eq in E. cbn [fold_left].
      rewrite digit_value_digit by lia. f_equal. lia.
    + rewrite IH.
      * cbn [fold_left]. rewrite digit_value_digit by lia. f_equal. lia.
      * split; [apply Z.div_pos; lia|].
        apply Z.div_lt_upper_bound; lia.
Qed.

(** [%zu] prints the number it is given. *)
Lemma decimal_value (n : Z) : 0 <= n < 2 ^ 64 -> dec_value (decimal n) = n.
Proof.
  intros Hn. unfold decimal, dec_value.
  rewrite put_dec_value; rewrite to_ulong_small by exact Hn.
  - reflexivity.
  - change (Z.of_nat 20) with 20. lia.
Qed.

Lemma decimal_nonzero (n : Z) : Forall nonzero (decimal n).
Proof. apply put_dec_nonzero. constructor. Qed.

Lemma decimal_length (n : Z) : (1 <= length (decimal n) <= 20)%nat.
Proof.
  unfold decimal.
  pose proof (put_dec_length 20 (to_size_t n) []) as H.
  change (Nat.min 1 20) with 1%nat in H. cbn [length] in H. lia.
Qed.

Lemma bytes_nonzero_paren : Forall nonzero (bytes " (").
Proof. repeat constructor; discriminate. Qed.

Lemma bytes_nonzero_letters : Forall nonzero (bytes " letters)").
Proof. repeat constructor; discriminate. Qed.

Lemma annotation_nonzero (len : Z) : Forall nonzero (annotation len).
Proof.
  unfold annotation. rewrite !Forall_app.
  split; [apply bytes_nonzero_paren|].
  split; [apply decimal_nonzero | apply bytes_nonzero_letters].
Qed.

Lemma annotation_length (len : Z) :
  length (annotation len) = (length (decimal len) + 11)%nat.
Proof.
  unfold annotation. rewrite !length_app.
  change (length (bytes " (")) with 2%nat.
  change (length (bytes " letters)")) with 9%nat. lia.
Qed.

Lemma format_message_nonzero (buffer : list byte) (len : Z) :
  Forall nonzero (format_message buffer len).
Proof.
  unfold format_message. rewrite Forall_app.
  split; [apply c_str_nonzero | apply annotation_nonzero].
Qed.

End Strings.

(** ** The message slot *)

Section Slot.

Lemma module_loaded_inv : slot_inv module_loaded.
Proof. split; [reflexivity | simpl; lia]. Qed.

Lemma sprintf_fits (dst out : list byte) :
  (length out < length dst)%nat ->
  sprintf dst out = Some (out ++ NUL :: skipn (length out + 1) dst).
Proof.
  intros H. unfold sprintf.
  destruct (Nat.leb_spec (length out + 1) (length dst)); [reflexivity | lia].
Qed.

Lemma sprintf_overrun (dst out : list byte) :
  (length dst <= length out)%nat -> sprintf dst out = None.
Proof.
  intros H. unfold sprintf.
  destruct (Nat.leb_spec (length out + 1) (length dst)); [lia | reflexivity].
Qed.

Lemma sprintf_length (dst out m : list byte) :
  sprintf dst out = Some m -> length m = length dst.
Proof.
  unfold sprintf.
  destruct (Nat.leb_spec (length out + 1) (length dst)) as [H|H];
    [|discriminate].
  intros [= <-]. rewrite length_app. cbn [length]. rewrite length_skipn. lia.
Qed.

(** A write whose text and terminator fit the array. *)
Lemma dev_write_stored (st : chardev) (buffer : list byte) (len : Z) :
  length (message st) = MESSAGE_SIZE ->
  (length (format_message buffer len) < MESSAGE_SIZE)%nat ->
  let out := format_message buffer len in
  dev_write st buffer len =
  (Stored (set_size_of_message (Z.of_nat (length out))
             (set_message (out ++ NUL :: skipn (length out + 1) (message st))
                st)),
   to_ssize_t len).
Proof.
  intros Hlen Hfit out. unfold dev_write. fold out.
  rewrite sprintf_fits by (rewrite Hlen; exact Hfit).
  rewrite strlen_terminated by apply format_message_nonzero.
  rewrite to_short_small; [reflexivity|].
  unfold out, MESSAGE_SIZE in *. lia.
Qed.

(** A write whose text and terminator do not fit: nothing bounds it. *)
Lemma dev_write_overrun (st : chardev) (buffer : list byte) (len : Z) :
  length (message st) = MESSAGE_SIZE ->
  (MESSAGE_SIZE <= length (format_message buffer len))%nat ->
  dev_write st buffer len =
  (Overrun (format_message buffer len), to_ssize_t len).
Proof.
  intros Hlen Hbig. unfold dev_write.
  rewrite sprintf_overrun by (rewrite Hlen; exact Hbig). reflexivity.
Qed.

Lemma valid_bytes_written (st : chardev) (out rest : list byte) :
  valid_bytes (set_size_of_message (Z.of_nat (length out))
                 (set_message (out ++ rest) st)) = out.
Proof.
  unfold valid_bytes. simpl. rewrite Nat2Z.id.
  rewrite firstn_app, Nat.sub_diag, firstn_all. simpl. apply app_nil_r.
Qed.

(** A completed write leaves a well-formed slot. *)
Lemma dev_write_inv (st st' : chardev) (buffer : list byte) (len : Z) :
  slot_inv st ->
  fst (dev_write st buffer len) = Stored st' ->
  slot_inv st' /\ valid_bytes st' = format_message buffer len.
Proof.
  intros [Hlen Hsize] Hw.
  destruct (Nat.lt_ge_cases (length (format_message buffer len)) MESSAGE_SIZE)
    as [Hfit|Hbig].
  - rewrite dev_write_stored in Hw by assumption. simpl in Hw.
    injection Hw as <-. split.
    + split; simpl.
      * rewrite length_app. cbn [length]. rewrite length_skipn. lia.
      * unfold MESSAGE_SIZE in *. lia.
    + apply valid_bytes_written.
  - rewrite dev_write_overrun in Hw by assumption. discriminate.
Qed.

(** On a well-formed slot the copy of a read succeeds exactly when the
    caller's buffer has room for the valid bytes. *)
Lemma copy_to_user_count (st : chardev) (buffer : user_buffer) :
  slot_inv st ->
  snd (copy_to_user buffer (message st) (size_of_message st)) =
  size_of_message st -
  Z.max 0 (Z.min (size_of_message st) (writable buffer)).
Proof.
  intros [_ Hsize]. unfold copy_to_user. cbn [snd].
  rewrite to_ulong_small; [reflexivity|]. unfold MESSAGE_SIZE in *. lia.
Qed.

Lemma copy_succeeds_iff (st : chardev) (buffer : user_buffer) :
  slot_inv st ->
  snd (copy_to_user buffer (message st) (size_of_message st)) = 0 <->
  size_of_message st <= Z.max 0 (writable buffer).
Proof.
  intros Hinv. rewrite copy_to_user_count by exact Hinv.
  destruct Hinv as [_ Hsize]. lia.
Qed.

Lemma dev_read_ok (st : chardev) (buffer : user_buffer) (len : Z) :
  slot_inv st ->
  size_of_message st <= Z.max 0 (writable buffer) ->
  dev_read st buffer len =
  (set_size_of_message 0 st,
   mkUserBuffer (writable buffer)
     (valid_bytes st
      ++ skipn (Z.to_nat (size_of_message st)) (stored buffer)),
   0).
Proof.
  intros [Hlen Hsize] Hroom. unfold dev_read, copy_to_user, valid_bytes.
  rewrite to_ulong_small by (unfold MESSAGE_SIZE in *; lia).
  replace (Z.max 0 (Z.min (size_of_message st) (writable buffer)))
    with (size_of_message st) by lia.
  rewrite Z.sub_diag. reflexivity.
Qed.

Lemma dev_read_fault (st : chardev) (buffer : user_buffer) (len : Z) :
  slot_inv st ->
  Z.max 0 (writable buffer) < size_of_message st ->
  let '(st', _, r) := dev_read st buffer len in
  st' = st /\ r = - EFAULT.
Proof.
  intros [Hlen Hsize] Hroom. unfold dev_read, copy_to_user.
  rewrite to_ulong_small by (unfold MESSAGE_SIZE in *; lia).
  set (copied := Z.max 0 (Z.min (size_of_message st) (writable buffer))).
  assert (Hc : 0 < size_of_message st - copied <= 256)
    by (subst copied; unfold MESSAGE_SIZE in *; lia).
  rewrite to_int_small by lia.
  destruct (Z.eqb_spec (size_of_message st - copied) 0); [lia|].
  split; reflexivity.
Qed.

Lemma valid_bytes_length (st : chardev) :
  slot_inv st -> Z.of_nat (length (valid_bytes st)) = size_of_message st.
Proof.
  intros [Hlen Hsize]. unfold valid_bytes.
  rewrite length_firstn, Hlen. unfold MESSAGE_SIZE in *. lia.
Qed.

(** The successful branch of [dev_read], by the test the code makes. *)
Lemma dev_read_success (st : chardev) (buffer : user_buffer) (len : Z) :
  slot_inv st ->
  snd (copy_to_user buffer (message st) (size_of_message st)) = 0 ->
  dev_read st buffer len =
  (set_size_of_message 0 st,
   mkUserBuffer (writable buffer)
     (valid_bytes st
      ++ skipn (Z.to_nat (size_of_message st)) (stored buffer)),
   0).
Proof.
  intros Hinv Hcopy. apply dev_read_ok; [exact Hinv|].
  now apply copy_succeeds_iff.
Qed.

Lemma set_size_of_message_inv (st : chardev) :
  slot_inv st -> slot_inv (set_size_of_message 0 st).
Proof. intros [Hlen _]. split; simpl; [exact Hlen | lia]. Qed.

(** Every operation that leaves a slot leaves a well-formed one; the one
    that leaves none is a write whose text and terminator exceed the
    array. *)
Lemma step_inv (st st' : chardev) (o : operation) :
  slot_inv st -> step st o = Some st' -> slot_inv st'.
Proof.
  intros Hinv. destruct o as [|buffer len|buffer len|]; cbn [step].
  - intros [= <-]. exact Hinv.
  - intros [= <-]. unfold dev_read.
    destruct (copy_to_user buffer (message st) (size_of_message st))
      as [buffer' not_copied].
    destruct (to_int not_copied =? 0); cbn [fst].
    + now apply set_size_of_message_inv.
    + exact Hinv.
  - destruct (fst (dev_write st buffer len)) as [st1|emitted] eqn:E;
      [|discriminate].
    intros [= <-]. now apply (dev_write_inv st st1 buffer len).
  - intros [= <-]. exact Hinv.
Qed.

Lemma step_write_none (st : chardev) (buffer : list byte) (len : Z) :
  slot_inv st ->
  step st (Write buffer len) = None <->
  (MESSAGE_SIZE <= length (format_message buffer len))%nat.
Proof.
  intros [Hlen _]. cbn [step].
  destruct (Nat.lt_ge_cases (length (format_message buffer len)) MESSAGE_SIZE)
    as [Hfit|Hbig].
  - rewrite dev_write_stored by assumption. cbn [fst].
    split; [discriminate | lia].
  - rewrite dev_write_overrun by assumption. cbn [fst].
    split; [intros _; exact Hbig | reflexivity].
Qed.

End Slot.

(** ** Reading *)

(** C1, as the code has it: for every well-formed slot with valid length N
    and every read whose copy to the caller succeeds, the N valid bytes are
    in the caller's buffer, the valid length is reset to 0, and the value
    returned is 0, the value just assigned to the valid length. *)
Theorem dev_read_drains_and_returns_zero
  (st : chardev) (buffer : user_buffer) (len : Z) :
  slot_inv st ->
  snd (copy_to_user buffer (message st) (size_of_message st)) = 0 ->
  exists buffer',
    dev_read st buffer len = (set_size_of_message 0 st, buffer', 0) /\
    stored buffer' =
      valid_bytes st
      ++ skipn (Z.to_nat (size_of_message st)) (stored buffer) /\
    Z.of_nat (length (valid_bytes st)) = size_of_message st.
Proof.
  intros Hinv Hcopy. eexists.
  split; [apply dev_read_success; assumption|].
  split; [reflexivity | now apply valid_bytes_length].
Qed.

Lemma dev_read_drains_and_returns_zero_witness :
  let st := slot_holding (bytes "hello (5 letters)") in
  let buffer := mkUserBuffer 256 [] in
  slot_inv st /\
  snd (copy_to_user buffer (message st) (size_of_message st)) = 0 /\
  exists buffer',
    dev_read st buffer 256 = (set_size_of_message 0 st, buffer', 0) /\
    stored buffer' =
      valid_bytes st
      ++ skipn (Z.to_nat (size_of_message st)) (stored buffer) /\
    Z.of_nat (length (valid_bytes st)) = size_of_message st.
Proof.
  intros st buffer.
  assert (Hinv : slot_inv st) by (split; [reflexivity | simpl; lia]).
  assert (Hcopy :
            snd (copy_to_user buffer (message st) (size_of_message st)) = 0)
    by reflexivity.
  split; [exact Hinv|]. split; [exact Hcopy|].
  exact (dev_read_drains_and_returns_zero st buffer 256 Hinv Hcopy).
Defined.

(** C1, as the specification words it, fails: with 17 valid bytes in the
    slot and room for them in the caller's buffer, the copy succeeds and
    the value returned is 0, not 17. *)
Lemma dev_read_does_not_return_count :
  let st := slot_holding (bytes "hello (5 letters)") in
  let buffer := mkUserBuffer 256 [] in
  slot_inv st /\
  size_of_message st = 17 /\
  snd (copy_to_user buffer (message st) (size_of_message st)) = 0 /\
  snd (dev_read st buffer 256) = 0 /\
  snd (dev_read st buffer 256) <> size_of_message st.
Proof.
  intros st buffer.
  split; [split; [reflexivity | simpl; lia]|].
  repeat split; try reflexivity. discriminate.
Qed.

(** C6: for every well-formed slot, when the copy to the caller's buffer
    fails, [dev_read] returns [-EFAULT] and the globals, the message bytes
    and the valid length among them, are what they were before the call. *)
Theorem dev_read_fault_keeps_slot
  (st : chardev) (buffer : user_buffer) (len : Z) :
  slot_inv st ->
  snd (copy_to_user buffer (message st) (size_of_message st)) <> 0 ->
  fst (fst (dev_read st buffer len)) = st /\
  message (fst (fst (dev_read st buffer len))) = message st /\
  size_of_message (fst (fst (dev_read st buffer len))) = size_of_message st /\
  snd (dev_read st buffer len) = - EFAULT.
Proof.
  intros Hinv Hcopy.
  assert (Hroom : Z.max 0 (writable buffer) < size_of_message st).
  { destruct (Z.lt_ge_cases (Z.max 0 (writable buffer)) (size_of_message st))
      as [H|H]; [exact H|].
    apply copy_succeeds_iff in H; [contradiction | exact Hinv]. }
  pose proof (dev_read_fault st buffer len Hinv Hroom) as Hr.
  destruct (dev_read st buffer len) as [[st' buffer'] r].
  destruct Hr as [-> ->]. repeat split.
Qed.

Lemma dev_read_fault_keeps_slot_witness :
  let st := slot_holding (bytes "hello (5 letters)") in
  let buffer := mkUserBuffer 4 [] in
  slot_inv st /\
  snd (copy_to_user buffer (message st) (size_of_message st)) <> 0 /\
  fst (fst (dev_read st buffer 17)) = st /\
  message (fst (fst (dev_read st buffer 17))) = message st /\
  size_of_message (fst (fst (dev_read st buffer 17))) = size_of_message st /\
  snd (dev_read st buffer 17) = - EFAULT.
Proof.
  intros st buffer.
  assert (Hinv : slot_inv st) by (split; [reflexivity | simpl; lia]).
  assert (Hcopy :
            snd (copy_to_user buffer (message st) (size_of_message st)) <> 0)
    by discriminate.
  split; [exact Hinv|]. split; [exact Hcopy|].
  exact (dev_read_fault_keeps_slot st buffer 17 Hinv Hcopy).
Defined.

(** C9: the requested length plays no part in a read.  Whatever [len] is,
    0 or less than the valid length included, the call does what it does
    for any other [len]; and on a well-formed slot, when the caller's
    memory takes the copy, exactly the valid bytes arrive there, as many as
    the valid length, and the value returned is 0. *)
Theorem dev_read_ignores_len
  (st : chardev) (buffer : user_buffer) (len len' : Z) :
  dev_read st buffer len = dev_read st buffer len' /\
  (slot_inv st ->
   snd (copy_to_user buffer (message st) (size_of_message st)) = 0 ->
   stored (snd (fst (dev_read st buffer len))) =
     valid_bytes st
     ++ skipn (Z.to_nat (size_of_message st)) (stored buffer) /\
   Z.of_nat (length (valid_bytes st)) = size_of_message st /\
   snd (dev_read st buffer len) = 0).
Proof.
  split; [reflexivity|]. intros Hinv Hcopy.
  rewrite (dev_read_success st buffer len Hinv Hcopy). cbn [fst snd stored].
  split; [reflexivity|]. split; [now apply valid_bytes_length | reflexivity].
Qed.

Lemma dev_read_ignores_len_witness :
  let st := slot_holding (bytes "hello (5 letters)") in
  let buffer := mkUserBuffer 256 [] in
  slot_inv st /\
  snd (copy_to_user buffer (message st) (size_of_message st)) = 0 /\
  dev_read st buffer 0 = dev_read st buffer 4 /\
  stored (snd (fst (dev_read st buffer 0))) =
    valid_bytes st ++ skipn (Z.to_nat (size_of_message st)) (stored buffer) /\
  Z.of_nat (length (valid_bytes st)) = size_of_message st /\
  snd (dev_read st buffer 0) = 0.
Proof.
  intros st buffer.
  assert (Hinv : slot_inv st) by (split; [reflexivity | simpl; lia]).
  assert (Hcopy :
            snd (copy_to_user buffer (message st) (size_of_message st)) = 0)
    by reflexivity.
  split; [exact Hinv|]. split; [exact Hcopy|].
  split; [exact (proj1 (dev_read_ignores_len st buffer 0 4))|].
  exact (proj2 (dev_read_ignores_len st buffer 0 4) Hinv Hcopy).
Defined.

(** ** Writing *)

(** C7: for every caller memory and every requested length that the file
    layer hands down (a count that is not negative as an [ssize_t]),
    [dev_write] returns that length, which is not an error value, whether
    the composed text was stored or ran past the array. *)
Theorem dev_write_returns_len
  (st : chardev) (buffer : list byte) (len : Z) :
  0 <= len <= SSIZE_MAX ->
  snd (dev_write st buffer len) = len /\ 0 <= snd (dev_write st buffer len).
Proof.
  intros Hlen.
  assert (Hret : snd (dev_write st buffer len) = to_ssize_t len).
  { unfold dev_write.
    destruct (sprintf (message st) (format_message buffer len)); reflexivity. }
  rewrite Hret, to_ssize_t_small by (unfold SSIZE_MAX in Hlen; lia). lia.
Qed.

Lemma dev_write_returns_len_witness :
  0 <= 250 <= SSIZE_MAX /\
  snd (dev_write module_loaded (repeat "a"%byte 250 ++ [NUL]) 250) = 250 /\
  0 <= snd (dev_write module_loaded (repeat "a"%byte 250 ++ [NUL]) 250).
Proof.
  assert (H : 0 <= 250 <= SSIZE_MAX) by (unfold SSIZE_MAX; lia).
  split; [exact H|].
  exact (dev_write_returns_len module_loaded
           (repeat "a"%byte 250 ++ [NUL]) 250 H).
Defined.

(** C2 does not hold of the code.  Writing 250 letters with length 250
    composes 264 bytes; [sprintf] has no bound, so all 264 and a terminator
    are stored from [message[0]] on, past the end of the 256-byte array:
    nothing is cut at 256 and the valid length is not kept within the
    capacity. *)
Theorem dev_write_overruns_message :
  let buffer := repeat "a"%byte 250 ++ [NUL] in
  let emitted := repeat "a"%byte 250 ++ bytes " (250 letters)" in
  dev_write module_loaded buffer 250 = (Overrun emitted, 250) /\
  length emitted = 264%nat /\
  (MESSAGE_SIZE < length emitted)%nat.
Proof.
  intros buffer emitted. split; [vm_compute; reflexivity|].
  split; [reflexivity | vm_compute; lia].
Qed.

(** C10: for every caller memory with a zero byte in it, that is, bytes
    [prefix] free of zero bytes, then a zero byte, then anything, and
    whatever [len] is, so also when the zero byte lies before position
    [len]: the text [dev_write] composes is [prefix] followed by the length
    annotation.  When that text and its terminator fit the array the write
    is stored and the slot's valid bytes are exactly [prefix] and the
    annotation; when they do not, these same bytes are what is emitted.
    The bytes from the first zero byte on play no part: replacing them
    changes nothing. *)
Theorem dev_write_stops_at_zero_byte
  (st : chardev) (prefix rest : list byte) (len : Z) :
  slot_inv st ->
  Forall nonzero prefix ->
  dev_write st (prefix ++ NUL :: rest) len =
    dev_write st (prefix ++ [NUL]) len /\
  ((length prefix + length (decimal len) + 12 <= MESSAGE_SIZE)%nat ->
   exists st',
     dev_write st (prefix ++ NUL :: rest) len
       = (Stored st', to_ssize_t len) /\
     valid_bytes st' = prefix ++ annotation len /\
     size_of_message st'
       = Z.of_nat (length prefix + length (decimal len) + 11)) /\
  ((MESSAGE_SIZE < length prefix + length (decimal len) + 12)%nat ->
   dev_write st (prefix ++ NUL :: rest) len
     = (Overrun (prefix ++ annotation len), to_ssize_t len)).
Proof.
  intros [Hlen Hsize] Hprefix.
  assert (Hfmt : forall tail,
             format_message (prefix ++ NUL :: tail) len
             = prefix ++ annotation len).
  { intros tail. unfold format_message.
    now rewrite c_str_terminated. }
  assert (Hl : length (prefix ++ annotation len)
               = (length prefix + length (decimal len) + 11)%nat).
  { rewrite length_app, annotation_length. lia. }
  split; [|split].
  - unfold dev_write. now rewrite !Hfmt.
  - intros Hfit.
    rewrite dev_write_stored
      by (try assumption; rewrite Hfmt, Hl; lia).
    rewrite Hfmt. eexists. split; [reflexivity|].
    split; [apply valid_bytes_written|].
    cbn [size_of_message set_size_of_message]. now rewrite Hl.
  - intros Hbig.
    rewrite dev_write_overrun
      by (try assumption; rewrite Hfmt, Hl; lia).
    now rewrite Hfmt.
Qed.

Lemma dev_write_stops_at_zero_byte_witness :
  let prefix := bytes "ab" in
  let rest := bytes "cd" in
  slot_inv module_loaded /\
  Forall nonzero prefix /\
  (length prefix + length (decimal 5) + 12 <= MESSAGE_SIZE)%nat /\
  dev_write module_loaded (prefix ++ NUL :: rest) 5 =
    dev_write module_loaded (prefix ++ [NUL]) 5 /\
  exists st',
    dev_write module_loaded (prefix ++ NUL :: rest) 5
      = (Stored st', to_ssize_t 5) /\
    valid_bytes st' = prefix ++ annotation 5 /\
    size_of_message st'
      = Z.of_nat (length prefix + length (decimal 5) + 11).
Proof.
  intros prefix rest.
  assert (Hprefix : Forall nonzero prefix)
    by (repeat constructor; discriminate).
  assert (Hfit : (length prefix + length (decimal 5) + 12
                  <= MESSAGE_SIZE)%nat) by (vm_compute; lia).
  destruct (dev_write_stops_at_zero_byte module_loaded prefix rest 5
              module_loaded_inv Hprefix) as (Hsame & Hstored & _).
  split; [exact module_loaded_inv|]. split; [exact Hprefix|].
  split; [exact Hfit|]. split; [exact Hsame | exact (Hstored Hfit)].
Defined.

(** ** Writing, then reading *)

Section WriteRead.

(** A write that fits, followed by a read with room for the text and then
    a second read. *)
Lemma write_read_read
  (st : chardev) (mem : list byte) (n : Z) (buffer : user_buffer)
  (len len' : Z) :
  slot_inv st ->
  0 <= n <= SSIZE_MAX ->
  (length (format_message mem n) < MESSAGE_SIZE)%nat ->
  Z.of_nat (length (format_message mem n)) <= writable buffer ->
  exists st1 st2 buffer2,
    dev_write st mem n = (Stored st1, n) /\
    valid_bytes st1 = format_message mem n /\
    size_of_message st1 = Z.of_nat (length (format_message mem n)) /\
    dev_read st1 buffer len = (st2, buffer2, 0) /\
    stored buffer2 =
      format_message mem n
      ++ skipn (length (format_message mem n)) (stored buffer) /\
    size_of_message st2 = 0 /\
    valid_bytes st2 = [] /\
    dev_read st2 buffer2 len' = (st2, buffer2, 0).
Proof.
  intros Hinv Hn Hfit Hroom.
  pose proof (dev_write_stored st mem n (proj1 Hinv) Hfit) as Hw.
  cbv zeta in Hw.
  rewrite to_ssize_t_small in Hw by (unfold SSIZE_MAX in Hn; lia).
  set (out := format_message mem n) in *.
  set (st1 := set_size_of_message _ _) in Hw.
  assert (Hinv1 : slot_inv st1 /\ valid_bytes st1 = out).
  { apply (dev_write_inv st st1 mem n Hinv). now rewrite Hw. }
  destruct Hinv1 as [Hinv1 Hvalid].
  assert (Hsize1 : size_of_message st1 = Z.of_nat (length out))
    by reflexivity.
  assert (Hr : dev_read st1 buffer len =
               (set_size_of_message 0 st1,
                mkUserBuffer (writable buffer)
                  (out ++ skipn (length out) (stored buffer)), 0)).
  { rewrite dev_read_ok by (try exact Hinv1; rewrite Hsize1; lia).
    now rewrite Hvalid, Hsize1, Nat2Z.id. }
  exists st1, (set_size_of_message 0 st1),
    (mkUserBuffer (writable buffer)
       (out ++ skipn (length out) (stored buffer))).
  repeat (split; [first [assumption | reflexivity]|]).
  rewrite dev_read_ok;
    [reflexivity | now apply set_size_of_message_inv | simpl; lia].
Qed.

End WriteRead.

(** C3, as the code has it: for every byte sequence [b] free of zero bytes
    that the caller holds as a C string (a zero byte follows it) and whose
    composed text and terminator fit the slot, len(b) + len(decimal(len(b)))
    + 12 <= 256, from every well-formed slot, [dev_write] with length
    len(b) stores the text and returns len(b); a read with room for the
    text then puts exactly [b] followed by " (", the decimal length and
    " letters)" in the caller's buffer and returns 0; and a second read
    right after it finds no valid byte and leaves the caller's buffer as it
    is. *)
Theorem write_then_read_delivers_annotated
  (st : chardev) (b rest : list byte) (buffer : user_buffer) (len len' : Z) :
  slot_inv st ->
  Forall nonzero b ->
  (length b + length (decimal (Z.of_nat (length b))) + 12
   <= MESSAGE_SIZE)%nat ->
  Z.of_nat (length (b ++ annotation (Z.of_nat (length b))))
  <= writable buffer ->
  exists st1 st2 buffer2,
    dev_write st (b ++ NUL :: rest) (Z.of_nat (length b))
      = (Stored st1, Z.of_nat (length b)) /\
    dev_read st1 buffer len = (st2, buffer2, 0) /\
    stored buffer2 =
      (b ++ annotation (Z.of_nat (length b)))
      ++ skipn (length (b ++ annotation (Z.of_nat (length b))))
           (stored buffer) /\
    valid_bytes st2 = [] /\
    dev_read st2 buffer2 len' = (st2, buffer2, 0).
Proof.
  intros Hinv Hb Hfit Hroom.
  assert (Hfmt : format_message (b ++ NUL :: rest) (Z.of_nat (length b))
                 = b ++ annotation (Z.of_nat (length b))).
  { unfold format_message. now rewrite c_str_terminated. }
  destruct (write_read_read st (b ++ NUL :: rest) (Z.of_nat (length b))
              buffer len len' Hinv)
    as (st1 & st2 & buffer2 & Hw & _ & _ & Hr & Hstored & _ & Hempty & Hr2).
  - unfold SSIZE_MAX, MESSAGE_SIZE in *. lia.
  - rewrite Hfmt, length_app, annotation_length. lia.
  - now rewrite Hfmt.
  - exists st1, st2, buffer2. rewrite Hfmt in Hstored. auto.
Qed.

Lemma write_then_read_delivers_annotated_witness :
  let b := bytes "hello" in
  let buffer := mkUserBuffer 64 [] in
  slot_inv module_loaded /\
  Forall nonzero b /\
  (length b + length (decimal (Z.of_nat (length b))) + 12
   <= MESSAGE_SIZE)%nat /\
  Z.of_nat (length (b ++ annotation (Z.of_nat (length b))))
  <= writable buffer /\
  exists st1 st2 buffer2,
    dev_write module_loaded (b ++ NUL :: []) (Z.of_nat (length b))
      = (Stored st1, Z.of_nat (length b)) /\
    dev_read st1 buffer 64 = (st2, buffer2, 0) /\
    stored buffer2 =
      (b ++ annotation (Z.of_nat (length b)))
      ++ skipn (length (b ++ annotation (Z.of_nat (length b))))
           (stored buffer) /\
    valid_bytes st2 = [] /\
    dev_read st2 buffer2 64 = (st2, buffer2, 0).
Proof.
  intros b buffer.
  assert (Hb : Forall nonzero b) by (repeat constructor; discriminate).
  assert (Hfit : (length b + length (decimal (Z.of_nat (length b))) + 12
                  <= MESSAGE_SIZE)%nat) by (vm_compute; lia).
  assert (Hroom : Z.of_nat (length (b ++ annotation (Z.of_nat (length b))))
                  <= writable buffer) by (vm_compute; discriminate).
  split; [exact module_loaded_inv|]. split; [exact Hb|].
  split; [exact Hfit|]. split; [exact Hroom|].
  exact (write_then_read_delivers_annotated module_loaded b [] buffer 64 64
           module_loaded_inv Hb Hfit Hroom).
Defined.

(** C3, as the specification words it, fails.  The three bytes "a", zero,
    "b" satisfy its bound (3 + 1 + 1 <= 256), yet after writing them with
    length 3 a read puts "a (3 letters)" in the caller's buffer, which is
    not the three bytes followed by their annotation.  And 250 letters
    satisfy its bound (250 + 3 + 1 <= 256), yet the text composed for them
    does not fit the array, so the write leaves no slot to read from. *)
Lemma write_then_read_loses_bytes_after_zero :
  let b := ["a"%byte; NUL; "b"%byte] in
  let st1 := slot_holding (bytes "a (3 letters)") in
  let b' := repeat "a"%byte 250 in
  (length b + length (decimal (Z.of_nat (length b))) + 1 <= 256)%nat /\
  dev_write module_loaded (b ++ [NUL]) (Z.of_nat (length b))
    = (Stored st1, Z.of_nat (length b)) /\
  stored (snd (fst (dev_read st1 (mkUserBuffer 256 []) 256)))
    = bytes "a (3 letters)" /\
  stored (snd (fst (dev_read st1 (mkUserBuffer 256 []) 256)))
    <> b ++ annotation (Z.of_nat (length b)) /\
  (length b' + length (decimal (Z.of_nat (length b'))) + 1 <= 256)%nat /\
  step module_loaded (Write (b' ++ [NUL]) (Z.of_nat (length b'))) = None.
Proof.
  intros b st1 b'. split; [vm_compute; lia|].
  split; [vm_compute; reflexivity|].
  split; [vm_compute; reflexivity|].
  split; [vm_compute; discriminate|].
  split; [vm_compute; lia | vm_compute; reflexivity].
Qed.

(** C4, as the code has it: after [dev_write] of "hello" with length 5 the
    slot holds the bytes "hello (5 letters)" with valid length 17; a read
    whose caller has room for them then puts those 17 bytes in the
    caller's buffer and leaves the valid length at 0. *)
Theorem hello_scenario
  (st : chardev) (buffer : user_buffer) (len : Z) :
  slot_inv st ->
  17 <= writable buffer ->
  exists st1 st2 buffer2 r,
    dev_write st (bytes "hello" ++ [NUL]) 5 = (Stored st1, 5) /\
    valid_bytes st1 = bytes "hello (5 letters)" /\
    size_of_message st1 = 17 /\
    dev_read st1 buffer len = (st2, buffer2, r) /\
    stored buffer2 = bytes "hello (5 letters)" ++ skipn 17 (stored buffer) /\
    size_of_message st2 = 0.
Proof.
  intros Hinv Hroom.
  assert (Hfmt : format_message (bytes "hello" ++ [NUL]) 5
                 = bytes "hello (5 letters)") by reflexivity.
  destruct (write_read_read st (bytes "hello" ++ [NUL]) 5 buffer len len Hinv)
    as (st1 & st2 & buffer2 & Hw & Hvalid & Hsize & Hr & Hstored & Hz & _).
  - unfold SSIZE_MAX. lia.
  - rewrite Hfmt. vm_compute. lia.
  - rewrite Hfmt. exact Hroom.
  - exists st1, st2, buffer2, 0. rewrite Hfmt in *.
    repeat split; assumption.
Qed.

Lemma hello_scenario_witness :
  slot_inv module_loaded /\
  17 <= writable (mkUserBuffer 32 []) /\
  exists st1 st2 buffer2 r,
    dev_write module_loaded (bytes "hello" ++ [NUL]) 5 = (Stored st1, 5) /\
    valid_bytes st1 = bytes "hello (5 letters)" /\
    size_of_message st1 = 17 /\
    dev_read st1 (mkUserBuffer 32 []) 32 = (st2, buffer2, r) /\
    stored buffer2
      = bytes "hello (5 letters)" ++ skipn 17 (stored (mkUserBuffer 32 [])) /\
    size_of_message st2 = 0.
Proof.
  assert (Hroom : 17 <= writable (mkUserBuffer 32 [])) by (simpl; lia).
  split; [exact module_loaded_inv|]. split; [exact Hroom|].
  exact (hello_scenario module_loaded (mkUserBuffer 32 []) 32
           module_loaded_inv Hroom).
Defined.

(** C4, as the specification words it, fails: after [dev_write] of "hello"
    with length 5 the slot holds "hello (5 letters)" and its valid length
    is 17, not 18. *)
Lemma hello_valid_length_is_not_18 :
  let st1 := slot_holding (bytes "hello (5 letters)") in
  dev_write module_loaded (bytes "hello" ++ [NUL]) 5 = (Stored st1, 5) /\
  valid_bytes st1 = bytes "hello (5 letters)" /\
  size_of_message st1 = 17 /\
  size_of_message st1 <> 18.
Proof.
  intros st1. split; [vm_compute; reflexivity|].
  split; [reflexivity|]. split; [reflexivity | discriminate].
Qed.

(** ** Opening *)

Section Open.

Lemma to_int_add_l (a b : Z) : to_int (to_int a + b) = to_int (a + b).
Proof.
  unfold to_int, wrap_signed. f_equal.
  replace ((a + 2 ^ (32 - 1)) mod 2 ^ 32 - 2 ^ (32 - 1) + b + 2 ^ (32 - 1))
    with ((a + 2 ^ (32 - 1)) mod 2 ^ 32 + b) by lia.
  rewrite Z.add_mod_idemp_l by (vm_compute; discriminate).
  f_equal. lia.
Qed.

Lemma open_times_S (n : nat) (st : chardev) :
  open_times (S n) st =
  (fst (open_times n (fst (dev_open st))),
   snd (dev_open st) :: snd (open_times n (fst (dev_open st)))).
Proof.
  cbn [open_times]. unfold dev_open. cbn [fst snd].
  now destruct (open_times n _).
Qed.

(** [n] calls return 0 each, leave the slot alone and count modulo the
    width of an [int]. *)
Lemma open_times_spec (n : nat) :
  forall st,
    snd (open_times n st) = repeat 0 n /\
    message (fst (open_times n st)) = message st /\
    size_of_message (fst (open_times n st)) = size_of_message st /\
    (to_int (open_num st) = open_num st ->
     open_num (fst (open_times n st)) = to_int (open_num st + Z.of_nat n)).
Proof.
  induction n as [|n IH]; intros st.
  - cbn [open_times fst snd repeat]. repeat split.
    intros Hint. rewrite <- Hint at 1. f_equal. simpl. lia.
  - rewrite open_times_S, Nat2Z.inj_succ. cbn [fst snd].
    destruct (IH (fst (dev_open st))) as (Hrets & Hmsg & Hsize & Hnum).
    rewrite Hrets, Hmsg, Hsize.
    cbn [dev_open fst snd open_num set_open_num message size_of_message
         repeat] in *.
    repeat split. intros _.
    rewrite Hnum.
    + rewrite to_int_add_l. f_equal. lia.
    + rewrite <- (Z.add_0_r (to_int (open_num st + 1))).
      rewrite to_int_add_l. now rewrite !Z.add_0_r.
Qed.

End Open.

(** C8, as the code has it: [dev_open] returns 0 for every state of the
    module and changes the open counter only: the message bytes and the
    valid length stay as they are.  N calls in a row, one after the other,
    all return 0.  The counter is an [int]: from a counter at 0 it stands,
    after N calls, at N brought into the range of [int], which is N itself
    for every N up to INT_MAX = 2^31 - 1. *)
Theorem dev_open_counts (st : chardev) (N : nat) :
  snd (dev_open st) = 0 /\
  message (fst (dev_open st)) = message st /\
  size_of_message (fst (dev_open st)) = size_of_message st /\
  open_num (fst (dev_open st)) = to_int (open_num st + 1) /\
  Forall (fun r => r = 0) (snd (open_times N st)) /\
  message (fst (open_times N st)) = message st /\
  size_of_message (fst (open_times N st)) = size_of_message st /\
  (open_num st = 0 ->
   open_num (fst (open_times N st)) = to_int (Z.of_nat N)) /\
  (open_num st = 0 ->
   Z.of_nat N <= INT_MAX ->
   open_num (fst (open_times N st)) = Z.of_nat N).
Proof.
  destruct (open_times_spec N st) as (Hrets & Hmsg & Hsize & Hnum).
  do 4 (split; [reflexivity|]).
  split.
  { rewrite Hrets. apply Forall_forall. intros r Hr.
    now apply repeat_spec in Hr. }
  do 2 (split; [assumption|]).
  split.
  - intros Hzero. rewrite Hnum, Hzero by (rewrite Hzero; reflexivity).
    reflexivity.
  - intros Hzero Hmax. rewrite Hnum, Hzero by (rewrite Hzero; reflexivity).
    apply to_int_small. unfold INT_MAX in Hmax. lia.
Qed.

Lemma dev_open_counts_witness :
  open_num module_loaded = 0 /\
  Z.of_nat 3 <= INT_MAX /\
  snd (dev_open module_loaded) = 0 /\
  Forall (fun r => r = 0) (snd (open_times 3 module_loaded)) /\
  open_num (fst (open_times 3 module_loaded)) = to_int (Z.of_nat 3) /\
  open_num (fst (open_times 3 module_loaded)) = Z.of_nat 3.
Proof.
  assert (Hmax : Z.of_nat 3 <= INT_MAX) by (vm_compute; discriminate).
  destruct (dev_open_counts module_loaded 3)
    as (Hret & _ & _ & _ & Hrets & _ & _ & Hwrap & Hcount).
  split; [reflexivity|]. split; [exact Hmax|].
  split; [exact Hret|]. split; [exact Hrets|].
  split; [exact (Hwrap eq_refl) | exact (Hcount eq_refl Hmax)].
Defined.

(** C8, as the specification words it, fails: after 2^31 calls of
    [dev_open] on the loaded module, whose counter starts at 0, the
    counter stands at -2^31, not at 2^31. *)
Lemma dev_open_counter_leaves_int_range :
  open_num module_loaded = 0 /\
  open_num (fst (open_times (Z.to_nat (2 ^ 31)) module_loaded)) = - 2 ^ 31 /\
  open_num (fst (open_times (Z.to_nat (2 ^ 31)) module_loaded))
    <> Z.of_nat (Z.to_nat (2 ^ 31)).
Proof.
  destruct (open_times_spec (Z.to_nat (2 ^ 31)) module_loaded)
    as (_ & _ & _ & Hnum).
  specialize (Hnum eq_refl).
  rewrite Z2Nat.id in * by lia.
  change (open_num module_loaded) with 0 in Hnum.
  change (to_int (0 + 2 ^ 31)) with (- 2 ^ 31) in Hnum.
  split; [reflexivity|]. rewrite Hnum. split; [reflexivity | lia].
Qed.

(** ** Registration *)

(** Running [chardev_init] up to its next test. *)
Ltac run_init :=
  cbv beta iota
      delta [chardev_init kbind kret load store call register_chrdev
             class_create device_create class_destroy unregister_chrdev];
  cbn [globals calls major_num set_major_num chardev_class set_chardev_class
       chardev_device set_chardev_device].

Section Registration.

Variable k : kernel.
Variable w : world.

Let major : Z := to_int (register_chrdev_answer k).
Let cls : Z := to_ulong (class_create_answer k).
Let dev : Z := to_ulong (device_create_answer k).

(** An error pointer carries a negative errno that fits an [int]. *)
Lemma PTR_ERR_errno (ptr : Z) :
  IS_ERR (to_ulong ptr) = true ->
  - MAX_ERRNO <= to_int (PTR_ERR (to_ulong ptr)) <= -1.
Proof.
  assert (Hlow : to_ulong (- MAX_ERRNO) = 2 ^ 64 - 4095) by reflexivity.
  unfold IS_ERR, PTR_ERR, to_long, wrap_signed. intros H.
  apply Z.leb_le in H. rewrite Hlow in H. unfold MAX_ERRNO.
  pose proof (to_ulong_range ptr) as Hr.
  rewrite (to_ulong_small (to_ulong ptr)) in H by exact Hr.
  change (2 ^ (64 - 1)) with (2 ^ 63).
  replace (to_ulong ptr + 2 ^ 63)
    with (to_ulong ptr - 2 ^ 63 + 1 * 2 ^ 64) by lia.
  rewrite Z_mod_plus_full, Z.mod_small by lia.
  rewrite to_int_small; lia.
Qed.

(** Step (a) fails: nothing else is called. *)
Lemma chardev_init_no_major :
  major < 0 ->
  chardev_init k w =
  (major,
   mkWorld (set_major_num major (globals w))
           (calls w ++ [RegisterChrdev 0 DEVICE_NAME])).
Proof.
  intros H. apply Z.ltb_lt in H.
  run_init. fold major. rewrite H. reflexivity.
Qed.

(** Step (b) fails. *)
Lemma chardev_init_no_class :
  0 <= major ->
  IS_ERR cls = true ->
  chardev_init k w =
  (to_int (PTR_ERR cls),
   mkWorld (set_chardev_class cls (set_major_num major (globals w)))
           (calls w ++ [RegisterChrdev 0 DEVICE_NAME]
                    ++ [ClassCreate CLASS_NAME]
                    ++ [UnregisterChrdev major DEVICE_NAME])).
Proof.
  intros Hmajor Hcls. apply Z.ltb_ge in Hmajor.
  run_init. fold major. rewrite Hmajor.
  run_init. fold cls. rewrite Hcls.
  run_init. now rewrite <- !app_assoc.
Qed.

(** Step (c) fails. *)
Lemma chardev_init_no_device :
  0 <= major ->
  IS_ERR cls = false ->
  IS_ERR dev = true ->
  chardev_init k w =
  (to_int (PTR_ERR dev),
   mkWorld (set_chardev_device dev
              (set_chardev_class cls (set_major_num major (globals w))))
           (calls w ++ [RegisterChrdev 0 DEVICE_NAME]
                    ++ [ClassCreate CLASS_NAME]
                    ++ [DeviceCreate cls (MKDEV major 0) DEVICE_NAME]
                    ++ [ClassDestroy cls]
                    ++ [UnregisterChrdev major DEVICE_NAME])).
Proof.
  intros Hmajor Hcls Hdev. apply Z.ltb_ge in Hmajor.
  run_init. fold major. rewrite Hmajor.
  run_init. fold cls. rewrite Hcls.
  run_init. fold dev. rewrite Hdev.
  run_init. now rewrite <- !app_assoc.
Qed.

(** All three steps succeed. *)
Lemma chardev_init_registered :
  0 <= major ->
  IS_ERR cls = false ->
  IS_ERR dev = false ->
  chardev_init k w =
  (0,
   mkWorld (set_chardev_device dev
              (set_chardev_class cls (set_major_num major (globals w))))
           (calls w ++ [RegisterChrdev 0 DEVICE_NAME]
                    ++ [ClassCreate CLASS_NAME]
                    ++ [DeviceCreate cls (MKDEV major 0) DEVICE_NAME])).
Proof.
  intros Hmajor Hcls Hdev. apply Z.ltb_ge in Hmajor.
  run_init. fold major. rewrite Hmajor.
  run_init. fold cls. rewrite Hcls.
  run_init. fold dev. rewrite Hdev.
  run_init. now rewrite <- !app_assoc.
Qed.

(** Unloading undoes the three steps, last one first. *)
Lemma chardev_exit_calls :
  chardev_exit w =
  (tt,
   mkWorld (globals w)
     (calls w
      ++ [DeviceDestroy (chardev_class (globals w))
            (MKDEV (major_num (globals w)) 0);
          ClassUnregister (chardev_class (globals w));
          ClassDestroy (chardev_class (globals w));
          UnregisterChrdev (major_num (globals w)) DEVICE_NAME])).
Proof.
  cbv [chardev_exit kbind load call device_destroy class_unregister
       class_destroy unregister_chrdev].
  cbn [globals calls]. now rewrite <- !app_assoc.
Qed.

Lemma times_releases_major_last (l : list kcall) (name : string) :
  times (releases_major major) l = O ->
  times (releases_major major) (l ++ [UnregisterChrdev major name]) = 1%nat.
Proof.
  unfold times. intros H. rewrite filter_app, length_app, H.
  cbn [filter releases_major]. now rewrite Z.eqb_refl.
Qed.

End Registration.

(** C5: during [chardev_init], when the major number was allocated and
    class creation fails, the calls made are the registration, the class
    creation and one release of the major number, with no device creation
    among them, and the error carried by the class pointer is returned;
    when class creation succeeds and device creation fails, the class is
    destroyed and then the major number released, both before the error
    carried by the device pointer is returned. *)
Theorem chardev_init_rolls_back (k : kernel) (w : world) :
  let major := to_int (register_chrdev_answer k) in
  let cls := to_ulong (class_create_answer k) in
  let dev := to_ulong (device_create_answer k) in
  0 <= major ->
  (IS_ERR cls = true ->
   exists made,
     calls (snd (chardev_init k w)) = calls w ++ made /\
     made = [RegisterChrdev 0 DEVICE_NAME; ClassCreate CLASS_NAME;
             UnregisterChrdev major DEVICE_NAME] /\
     times (releases_major major) made = 1%nat /\
     times creates_device made = 0%nat /\
     fst (chardev_init k w) = to_int (PTR_ERR cls) /\
     - MAX_ERRNO <= fst (chardev_init k w) <= -1) /\
  (IS_ERR cls = false ->
   IS_ERR dev = true ->
   exists made,
     calls (snd (chardev_init k w)) = calls w ++ made /\
     made = [RegisterChrdev 0 DEVICE_NAME; ClassCreate CLASS_NAME;
             DeviceCreate cls (MKDEV major 0) DEVICE_NAME;
             ClassDestroy cls; UnregisterChrdev major DEVICE_NAME] /\
     times (releases_class cls) made = 1%nat /\
     times (releases_major major) made = 1%nat /\
     fst (chardev_init k w) = to_int (PTR_ERR dev) /\
     - MAX_ERRNO <= fst (chardev_init k w) <= -1).
Proof.
  intros major cls dev Hmajor. split.
  - intros Hcls.
    rewrite (chardev_init_no_class k w Hmajor Hcls). cbn [fst snd calls].
    eexists. split; [reflexivity|]. split; [reflexivity|].
    split; [now apply (times_releases_major_last k [_; _])|].
    split; [reflexivity|]. split; [reflexivity|].
    now apply PTR_ERR_errno.
  - intros Hcls Hdev.
    rewrite (chardev_init_no_device k w Hmajor Hcls Hdev). cbn [fst snd calls].
    eexists. split; [reflexivity|]. split; [reflexivity|].
    split.
    { unfold times. cbn [filter releases_class app].
      now rewrite Z.eqb_refl. }
    split; [now apply (times_releases_major_last k [_; _; _; _])|].
    split; [reflexivity|].
    now apply PTR_ERR_errno.
Qed.

Lemma chardev_init_rolls_back_witness :
  let k := mkKernel 250 (- 12) (- 12) in
  let k' := mkKernel 250 18446612682070000000 (- 12) in
  let w := mkWorld module_loaded [] in
  0 <= to_int (register_chrdev_answer k) /\
  IS_ERR (to_ulong (class_create_answer k)) = true /\
  IS_ERR (to_ulong (class_create_answer k')) = false /\
  IS_ERR (to_ulong (device_create_answer k')) = true /\
  calls (snd (chardev_init k w)) =
    [RegisterChrdev 0 DEVICE_NAME; ClassCreate CLASS_NAME;
     UnregisterChrdev 250 DEVICE_NAME] /\
  fst (chardev_init k w) = - 12 /\
  calls (snd (chardev_init k' w)) =
    [RegisterChrdev 0 DEVICE_NAME; ClassCreate CLASS_NAME;
     DeviceCreate 18446612682070000000 (MKDEV 250 0) DEVICE_NAME;
     ClassDestroy 18446612682070000000; UnregisterChrdev 250 DEVICE_NAME] /\
  fst (chardev_init k' w) = - 12.
Proof.
  intros k k' w.
  assert (Hmajor : 0 <= to_int (register_chrdev_answer k))
    by (vm_compute; discriminate).
  assert (Hcls : IS_ERR (to_ulong (class_create_answer k)) = true)
    by reflexivity.
  assert (Hcls' : IS_ERR (to_ulong (class_create_answer k')) = false)
    by reflexivity.
  assert (Hdev' : IS_ERR (to_ulong (device_create_answer k')) = true)
    by reflexivity.
  destruct (chardev_init_rolls_back k w Hmajor) as [Hb _].
  destruct (chardev_init_rolls_back k' w Hmajor) as [_ Hc].
  destruct (Hb Hcls) as (made & Hcalls & -> & _ & _ & Hret & _).
  destruct (Hc Hcls' Hdev') as (made' & Hcalls' & -> & _ & _ & Hret' & _).
  repeat split; assumption.
Defined.

(** * Further properties of the file operations *)

Section SlotFacts.

Lemma c_str_firstn (s : list byte) : c_str s = firstn (strlen s) s.
Proof.
  induction s as [|c s IH]; simpl; [reflexivity|].
  destruct (Byte.eqb c NUL); simpl; congruence.
Qed.

Lemma strlen_repeat_NUL (n : nat) : strlen (repeat NUL n) = O.
Proof. destruct n; reflexivity. Qed.

Lemma module_loaded_sound : slot_sound module_loaded.
Proof.
  unfold slot_sound, module_loaded, MESSAGE_SIZE. cbn [message size_of_message].
  rewrite repeat_length, strlen_repeat_NUL. repeat split; [lia | now left].
Qed.

Lemma slot_sound_inv (st : chardev) : slot_sound st -> slot_inv st.
Proof.
  intros (Hlen & Hstr & Hsize). split; [exact Hlen|].
  unfold MESSAGE_SIZE in *. lia.
Qed.

Lemma slot_sound_valid (st : chardev) :
  slot_sound st ->
  0 <= size_of_message st <= 255 /\ Forall nonzero (valid_bytes st).
Proof.
  intros (Hlen & Hstr & [Hsize|Hsize]); unfold valid_bytes, MESSAGE_SIZE in *;
    rewrite Hsize.
  - split; [lia | constructor].
  - split; [lia|]. rewrite Nat2Z.id, <- c_str_firstn. apply c_str_nonzero.
Qed.

Lemma dev_write_sound (st st' : chardev) (buffer : list byte) (len : Z) :
  slot_inv st ->
  fst (dev_write st buffer len) = Stored st' ->
  slot_sound st'.
Proof.
  intros [Hlen Hsize] Hw.
  destruct (Nat.lt_ge_cases (length (format_message buffer len)) MESSAGE_SIZE)
    as [Hfit|Hbig].
  - rewrite dev_write_stored in Hw by assumption. cbn [fst] in Hw.
    injection Hw as <-. unfold slot_sound.
    cbn [message size_of_message set_size_of_message set_message].
    rewrite strlen_terminated by apply format_message_nonzero.
    split; [|split; [exact Hfit | now right]].
    rewrite length_app. cbn [length]. rewrite length_skipn. lia.
  - rewrite dev_write_overrun in Hw by assumption. discriminate.
Qed.

Lemma step_sound (st st' : chardev) (o : operation) :
  slot_sound st -> step st o = Some st' -> slot_sound st'.
Proof.
  intros Hs. destruct o as [|buffer len|buffer len|]; cbn [step].
  - intros [= <-]. exact Hs.
  - intros [= <-]. unfold dev_read.
    destruct (copy_to_user buffer (message st) (size_of_message st))
      as [buffer' not_copied].
    destruct (to_int not_copied =? 0); cbn [fst]; [|exact Hs].
    destruct Hs as (Hlen & Hstr & _). repeat split; try assumption.
    now left.
  - destruct (fst (dev_write st buffer len)) as [st1|emitted] eqn:E;
      [|discriminate].
    intros [= <-]. apply (dev_write_sound st st1 buffer len); [|exact E].
    now apply slot_sound_inv.
  - intros [= <-]. exact Hs.
Qed.

Lemma run_sound (ops : list operation) :
  forall st st', slot_sound st -> run st ops = Some st' -> slot_sound st'.
Proof.
  induction ops as [|o ops IH]; intros st st' Hs; cbn [run].
  - intros [= <-]. exact Hs.
  - destruct (step st o) as [st1|] eqn:E; [|discriminate].
    apply IH. now apply (step_sound st st1 o).
Qed.

Lemma decimal_length_small (n : Z) :
  0 <= n < 1000 ->
  length (decimal n) =
  if n <? 10 then 1%nat else if n <? 100 then 2%nat else 3%nat.
Proof.
  intros Hn. unfold decimal. rewrite to_ulong_small by lia.
  change 20%nat with (S (S (S 17))). cbn [put_dec].
  destruct (Z.ltb_spec n 10) as [H1|H1].
  - destruct (Z.eqb_spec (n / 10) 0) as [E|E]; [reflexivity|].
    exfalso. apply E. apply Z.div_small. lia.
  - destruct (Z.eqb_spec (n / 10) 0) as [E|E].
    { exfalso. revert E. Z.to_euclidean_division_equations. lia. }
    destruct (Z.ltb_spec n 100) as [H2|H2].
    + destruct (Z.eqb_spec (n / 10 / 10) 0) as [E2|E2]; [reflexivity|].
      exfalso. apply E2. Z.to_euclidean_division_equations. lia.
    + destruct (Z.eqb_spec (n / 10 / 10) 0) as [E2|E2].
      { exfalso. revert E2. Z.to_euclidean_division_equations. lia. }
      destruct (Z.eqb_spec (n / 10 / 10 / 10) 0) as [E3|E3]; [reflexivity|].
      exfalso. apply E3. Z.to_euclidean_division_equations. lia.
Qed.

Lemma format_message_length (buffer : list byte) (len : Z) :
  length (format_message buffer len)
  = (strlen buffer + length (decimal len) + 11)%nat.
Proof.
  unfold format_message.
  rewrite length_app, c_str_length, annotation_length. lia.
Qed.

End SlotFacts.

(** X1: whatever calls are made on the loaded module, in whatever order,
    as long as no write ran past the array: the array still has its 256
    bytes, the valid length lies between 0 and 255, and the valid bytes,
    as many as the valid length, contain no zero byte. *)
Theorem run_keeps_slot_sound (ops : list operation) (st : chardev) :
  run module_loaded ops = Some st ->
  length (message st) = MESSAGE_SIZE /\
  0 <= size_of_message st <= 255 /\
  Z.of_nat (length (valid_bytes st)) = size_of_message st /\
  Forall nonzero (valid_bytes st).
Proof.
  intros Hrun.
  pose proof (run_sound ops module_loaded st module_loaded_sound Hrun) as Hs.
  destruct (slot_sound_valid st Hs) as [Hsize Hnz].
  split; [exact (proj1 Hs)|]. split; [exact Hsize|].
  split; [|exact Hnz]. apply valid_bytes_length. now apply slot_sound_inv.
Qed.

Lemma run_keeps_slot_sound_witness :
  let ops := [Open; Write (bytes "hello" ++ [NUL]) 5;
              Read (mkUserBuffer 4 []) 4; Release] in
  let st := set_open_num 1 (slot_holding (bytes "hello (5 letters)")) in
  run module_loaded ops = Some st /\
  length (message st) = MESSAGE_SIZE /\
  0 <= size_of_message st <= 255 /\
  Z.of_nat (length (valid_bytes st)) = size_of_message st /\
  Forall nonzero (valid_bytes st).
Proof.
  intros ops st.
  assert (Hrun : run module_loaded ops = Some st) by (vm_compute; reflexivity).
  split; [exact Hrun|].
  exact (run_keeps_slot_sound ops st Hrun).
Defined.

(** X2: what a write leaves as valid content does not depend on what the
    slot held before.  From any two well-formed slots the same write either
    is stored in both, with the same valid bytes (the text composed from
    the caller's string and [len]) and the same valid length, or runs past
    the array in both. *)
Theorem dev_write_forgets_previous
  (st st' : chardev) (buffer : list byte) (len : Z) :
  slot_inv st ->
  slot_inv st' ->
  match fst (dev_write st buffer len), fst (dev_write st' buffer len) with
  | Stored s, Stored s' =>
      valid_bytes s = format_message buffer len /\
      valid_bytes s' = format_message buffer len /\
      size_of_message s = size_of_message s'
  | Overrun e, Overrun e' => e = e'
  | _, _ => False
  end.
Proof.
  intros [Hlen _] [Hlen' _].
  destruct (Nat.lt_ge_cases (length (format_message buffer len)) MESSAGE_SIZE)
    as [Hfit|Hbig].
  - rewrite !dev_write_stored by assumption. cbn [fst].
    rewrite !valid_bytes_written. repeat split.
  - rewrite !dev_write_overrun by assumption. reflexivity.
Qed.

Lemma dev_write_forgets_previous_witness :
  let st := module_loaded in
  let st' := slot_holding (repeat "z"%byte 200) in
  slot_inv st /\
  slot_inv st' /\
  match fst (dev_write st (bytes "hi") 2), fst (dev_write st' (bytes "hi") 2)
  with
  | Stored s, Stored s' =>
      valid_bytes s = format_message (bytes "hi") 2 /\
      valid_bytes s' = format_message (bytes "hi") 2 /\
      size_of_message s = size_of_message s'
  | Overrun e, Overrun e' => e = e'
  | _, _ => False
  end.
Proof.
  intros st st'.
  assert (Hinv' : slot_inv st') by (split; [reflexivity | simpl; lia]).
  split; [exact module_loaded_inv|]. split; [exact Hinv'|].
  exact (dev_write_forgets_previous st st' (bytes "hi") 2
           module_loaded_inv Hinv').
Defined.

(** X3: whether a write is stored is decided by one sum.  With s the
    length of the caller's string (its bytes before the first zero byte)
    and d the number of decimal digits of [len]: when s + d + 12 <= 256 the
    write is stored and the valid length becomes s + d + 11; otherwise the
    composed text runs past the array. *)
Theorem dev_write_fits_exactly
  (st : chardev) (buffer : list byte) (len : Z) :
  slot_inv st ->
  ((strlen buffer + length (decimal len) + 12 <= MESSAGE_SIZE)%nat ->
   exists st',
     fst (dev_write st buffer len) = Stored st' /\
     size_of_message st'
       = Z.of_nat (strlen buffer + length (decimal len) + 11)) /\
  ((MESSAGE_SIZE < strlen buffer + length (decimal len) + 12)%nat ->
   fst (dev_write st buffer len) = Overrun (format_message buffer len)).
Proof.
  intros [Hlen _]. split; intros H.
  - rewrite dev_write_stored
      by (try assumption; rewrite format_message_length; lia).
    cbn [fst]. eexists. split; [reflexivity|].
    cbn [size_of_message set_size_of_message].
    now rewrite format_message_length.
  - rewrite dev_write_overrun
      by (try assumption; rewrite format_message_length; lia).
    reflexivity.
Qed.

Lemma dev_write_fits_exactly_witness :
  slot_inv module_loaded /\
  (exists st',
     fst (dev_write module_loaded (bytes "hello") 5) = Stored st' /\
     size_of_message st' = 17) /\
  fst (dev_write module_loaded (repeat "a"%byte 250) 250)
    = Overrun (format_message (repeat "a"%byte 250) 250).
Proof.
  split; [exact module_loaded_inv|]. split.
  - apply (proj1 (dev_write_fits_exactly module_loaded (bytes "hello") 5
                    module_loaded_inv)).
    vm_compute. lia.
  - apply (proj2 (dev_write_fits_exactly module_loaded
                    (repeat "a"%byte 250) 250 module_loaded_inv)).
    vm_compute. lia.
Defined.

(** X4: a caller that writes a string with its own length, [s] free of
    zero bytes and followed by one, [len] the length of [s], has it stored
    with its annotation when [s] has at most 241 bytes, and makes the
    composed text run past the array when [s] has 242 bytes or more. *)
Theorem dev_write_own_length
  (st : chardev) (s rest : list byte) :
  slot_inv st ->
  Forall nonzero s ->
  ((length s <= 241)%nat ->
   exists st',
     fst (dev_write st (s ++ NUL :: rest) (Z.of_nat (length s))) = Stored st' /\
     valid_bytes st' = s ++ annotation (Z.of_nat (length s))) /\
  ((242 <= length s)%nat ->
   fst (dev_write st (s ++ NUL :: rest) (Z.of_nat (length s)))
   = Overrun (s ++ annotation (Z.of_nat (length s)))).
Proof.
  intros [Hlen Hsize] Hs.
  assert (Hfmt : format_message (s ++ NUL :: rest) (Z.of_nat (length s))
                 = s ++ annotation (Z.of_nat (length s))).
  { unfold format_message. now rewrite c_str_terminated. }
  assert (Hl : length (format_message (s ++ NUL :: rest)
                         (Z.of_nat (length s)))
               = (length s + length (decimal (Z.of_nat (length s))) + 11)%nat).
  { rewrite format_message_length. now rewrite strlen_terminated. }
  pose proof (decimal_length (Z.of_nat (length s))) as Hd.
  split; intros H.
  - assert (Hd3 : (length (decimal (Z.of_nat (length s))) <= 3)%nat).
    { rewrite decimal_length_small by lia.
      destruct (Z.of_nat (length s) <? 10); [lia|].
      destruct (Z.of_nat (length s) <? 100); lia. }
    rewrite dev_write_stored
      by (try assumption; rewrite Hl; unfold MESSAGE_SIZE; lia).
    cbn [fst]. eexists. split; [reflexivity|].
    rewrite valid_bytes_written. exact Hfmt.
  - rewrite dev_write_overrun; [now rewrite Hfmt | assumption |].
    rewrite Hl. unfold MESSAGE_SIZE.
    destruct (Nat.le_gt_cases 245 (length s)) as [Hbig|Hsmall]; [lia|].
    rewrite decimal_length_small by lia.
    destruct (Z.ltb_spec (Z.of_nat (length s)) 10); [lia|].
    destruct (Z.ltb_spec (Z.of_nat (length s)) 100); lia.
Qed.

Lemma dev_write_own_length_witness :
  let s := repeat "a"%byte 241 in
  let s' := repeat "a"%byte 242 in
  slot_inv module_loaded /\
  Forall nonzero s /\
  Forall nonzero s' /\
  (exists st',
     fst (dev_write module_loaded (s ++ NUL :: []) (Z.of_nat (length s)))
     = Stored st' /\
     valid_bytes st' = s ++ annotation (Z.of_nat (length s))) /\
  fst (dev_write module_loaded (s' ++ NUL :: []) (Z.of_nat (length s')))
  = Overrun (s' ++ annotation (Z.of_nat (length s'))).
Proof.
  intros s s'.
  assert (Hs : Forall nonzero s)
    by (apply Forall_forall; intros c Hc; apply repeat_spec in Hc;
        subst c; discriminate).
  assert (Hs' : Forall nonzero s')
    by (apply Forall_forall; intros c Hc; apply repeat_spec in Hc;
        subst c; discriminate).
  split; [exact module_loaded_inv|]. split; [exact Hs|]. split; [exact Hs'|].
  split.
  - apply (proj1 (dev_write_own_length module_loaded s []
                    module_loaded_inv Hs)).
    unfold s. rewrite repeat_length. lia.
  - apply (proj2 (dev_write_own_length module_loaded s' []
                    module_loaded_inv Hs')).
    unfold s'. rewrite repeat_length. lia.
Defined.

(** X5: bounds on a write that do not depend on [len].  A stored write
    always leaves between 12 and 255 valid bytes, so never an empty slot,
    not even for an empty string; a caller's string of at most 224 bytes is
    always stored; one of 244 bytes or more always runs past the array. *)
Theorem dev_write_bounds
  (st : chardev) (buffer : list byte) (len : Z) :
  slot_inv st ->
  (forall st',
     fst (dev_write st buffer len) = Stored st' ->
     12 <= size_of_message st' <= 255) /\
  ((strlen buffer <= 224)%nat ->
   exists st', fst (dev_write st buffer len) = Stored st') /\
  ((244 <= strlen buffer)%nat ->
   fst (dev_write st buffer len) = Overrun (format_message buffer len)).
Proof.
  intros [Hlen Hsize].
  pose proof (decimal_length len) as Hd.
  pose proof (format_message_length buffer len) as Hl.
  split; [|split].
  - intros st' Hw.
    destruct (Nat.lt_ge_cases (length (format_message buffer len))
                MESSAGE_SIZE) as [Hfit|Hbig].
    + rewrite dev_write_stored in Hw by assumption. cbn [fst] in Hw.
      injection Hw as <-. cbn [size_of_message set_size_of_message].
      unfold MESSAGE_SIZE in *. lia.
    + rewrite dev_write_overrun in Hw by assumption. discriminate.
  - intros H.
    rewrite dev_write_stored
      by (try assumption; unfold MESSAGE_SIZE; lia).
    cbn [fst]. eexists. reflexivity.
  - intros H.
    rewrite dev_write_overrun
      by (try assumption; unfold MESSAGE_SIZE; lia).
    reflexivity.
Qed.

Lemma dev_write_bounds_witness :
  slot_inv module_loaded /\
  (exists st',
     fst (dev_write module_loaded [] 0) = Stored st' /\
     12 <= size_of_message st' <= 255) /\
  fst (dev_write module_loaded (repeat "a"%byte 244) 0)
  = Overrun (format_message (repeat "a"%byte 244) 0).
Proof.
  destruct (dev_write_bounds module_loaded [] 0 module_loaded_inv)
    as (Hrange & Hfit & _).
  destruct (dev_write_bounds module_loaded (repeat "a"%byte 244) 0
              module_loaded_inv) as (_ & _ & Hbig).
  split; [exact module_loaded_inv|]. split.
  - destruct Hfit as [st' Hst']; [simpl; lia|].
    exists st'. split; [exact Hst' | exact (Hrange st' Hst')].
  - apply Hbig. vm_compute. lia.
Defined.

(** X6: a read of an empty slot (nothing written since loading, or read
    since the last write) returns 0 and changes neither the slot nor the
    caller's buffer, whatever the destination and the requested length:
    it cannot fault. *)
Theorem dev_read_empty_slot
  (st : chardev) (buffer : user_buffer) (len : Z) :
  slot_inv st ->
  size_of_message st = 0 ->
  dev_read st buffer len = (st, buffer, 0).
Proof.
  intros Hinv Hzero.
  rewrite dev_read_ok by (try assumption; lia).
  unfold valid_bytes. rewrite Hzero. cbn [Z.to_nat firstn skipn app].
  destruct st, buffer. cbn in Hzero. subst. reflexivity.
Qed.

Lemma dev_read_empty_slot_witness :
  slot_inv module_loaded /\
  size_of_message module_loaded = 0 /\
  dev_read module_loaded (mkUserBuffer 0 []) 100
  = (module_loaded, mkUserBuffer 0 [], 0).
Proof.
  split; [exact module_loaded_inv|]. split; [reflexivity|].
  exact (dev_read_empty_slot module_loaded (mkUserBuffer 0 []) 100
           module_loaded_inv eq_refl).
Defined.

(** X7: a read that faults loses nothing.  When a read into one buffer
    fails, a read into a buffer that takes the copy, made right after it,
    does what it would have done had the failed read not been made: it
    delivers the same valid bytes and drains the slot. *)
Theorem dev_read_retry_after_fault
  (st : chardev) (bad good : user_buffer) (len len' : Z) :
  slot_inv st ->
  snd (copy_to_user bad (message st) (size_of_message st)) <> 0 ->
  snd (copy_to_user good (message st) (size_of_message st)) = 0 ->
  let st1 := fst (fst (dev_read st bad len)) in
  dev_read st1 good len' = dev_read st good len' /\
  stored (snd (fst (dev_read st1 good len'))) =
    valid_bytes st ++ skipn (Z.to_nat (size_of_message st)) (stored good) /\
  size_of_message (fst (fst (dev_read st1 good len'))) = 0.
Proof.
  intros Hinv Hbad Hgood st1.
  assert (Hroom : Z.max 0 (writable bad) < size_of_message st).
  { destruct (Z.lt_ge_cases (Z.max 0 (writable bad)) (size_of_message st))
      as [H|H]; [exact H|].
    apply copy_succeeds_iff in H; [contradiction | exact Hinv]. }
  pose proof (dev_read_fault st bad len Hinv Hroom) as Hr.
  assert (Hst1 : st1 = st).
  { unfold st1. destruct (dev_read st bad len) as [[st' b'] r].
    now destruct Hr. }
  rewrite Hst1. split; [reflexivity|].
  rewrite (dev_read_success st good len' Hinv Hgood). split; reflexivity.
Qed.

Lemma dev_read_retry_after_fault_witness :
  let st := slot_holding (bytes "hello (5 letters)") in
  let bad := mkUserBuffer 4 [] in
  let good := mkUserBuffer 32 [] in
  slot_inv st /\
  snd (copy_to_user bad (message st) (size_of_message st)) <> 0 /\
  snd (copy_to_user good (message st) (size_of_message st)) = 0 /\
  stored (snd (fst (dev_read (fst (fst (dev_read st bad 4))) good 32))) =
    valid_bytes st ++ skipn (Z.to_nat (size_of_message st)) (stored good).
Proof.
  intros st bad good.
  assert (Hinv : slot_inv st) by (split; [reflexivity | simpl; lia]).
  assert (Hbad : snd (copy_to_user bad (message st) (size_of_message st))
                 <> 0) by discriminate.
  assert (Hgood : snd (copy_to_user good (message st) (size_of_message st))
                  = 0) by reflexivity.
  split; [exact Hinv|]. split; [exact Hbad|]. split; [exact Hgood|].
  exact (proj1 (proj2 (dev_read_retry_after_fault st bad good 4 32
                         Hinv Hbad Hgood))).
Defined.

Section OpenRelease.

Lemma dev_read_same_slot
  (st st' : chardev) (buffer : user_buffer) (len : Z) :
  message st' = message st ->
  size_of_message st' = size_of_message st ->
  snd (fst (dev_read st' buffer len)) = snd (fst (dev_read st buffer len)) /\
  snd (dev_read st' buffer len) = snd (dev_read st buffer len).
Proof.
  intros Hm Hs. unfold dev_read. rewrite Hm, Hs.
  destruct (copy_to_user buffer (message st) (size_of_message st))
    as [buffer' not_copied].
  destruct (to_int not_copied =? 0); split; reflexivity.
Qed.

Lemma run_open_release (ops : list operation) :
  forall st,
    forallb is_open_or_release ops = true ->
    exists st',
      run st ops = Some st' /\
      message st' = message st /\
      size_of_message st' = size_of_message st.
Proof.
  induction ops as [|o ops IH]; intros st Hops.
  - exists st. repeat split.
  - cbn [forallb] in Hops. apply andb_prop in Hops as [Ho Hops].
    destruct o as [|buffer len|buffer len|]; try discriminate; cbn [run step].
    + destruct (IH (fst (dev_open st)) Hops) as (st' & Hrun & Hm & Hs).
      exists st'. repeat split; assumption.
    + destruct (IH (fst (dev_release st)) Hops) as (st' & Hrun & Hm & Hs).
      exists st'. repeat split; assumption.
Qed.

End OpenRelease.

(** X8: opening and releasing the device, any number of times in any
    order, never runs out of a slot and leaves the message alone: the
    array and the valid length are as before, and a read made afterwards
    puts in the caller's buffer, and returns, what it would have without
    them. *)
Theorem open_release_keep_message
  (st : chardev) (ops : list operation) (buffer : user_buffer) (len : Z) :
  forallb is_open_or_release ops = true ->
  exists st',
    run st ops = Some st' /\
    message st' = message st /\
    size_of_message st' = size_of_message st /\
    snd (fst (dev_read st' buffer len)) = snd (fst (dev_read st buffer len)) /\
    snd (dev_read st' buffer len) = snd (dev_read st buffer len).
Proof.
  intros Hops.
  destruct (run_open_release ops st Hops) as (st' & Hrun & Hm & Hs).
  exists st'. split; [exact Hrun|]. split; [exact Hm|]. split; [exact Hs|].
  now apply dev_read_same_slot.
Qed.

Lemma open_release_keep_message_witness :
  let st := slot_holding (bytes "hello (5 letters)") in
  let ops := [Open; Open; Release; Open; Release; Release] in
  let buffer := mkUserBuffer 32 [] in
  forallb is_open_or_release ops = true /\
  exists st',
    run st ops = Some st' /\
    message st' = message st /\
    size_of_message st' = size_of_message st /\
    snd (fst (dev_read st' buffer 32)) = snd (fst (dev_read st buffer 32)) /\
    snd (dev_read st' buffer 32) = snd (dev_read st buffer 32).
Proof.
  intros st ops buffer.
  assert (Hops : forallb is_open_or_release ops = true) by reflexivity.
  split; [exact Hops|].
  exact (open_release_keep_message st ops buffer 32 Hops).
Defined.

Section Digits.

Lemma put_dec_digits (fuel : nat) :
  forall n acc,
    Forall (fun c => 0 <= digit_value c <= 9) acc ->
    Forall (fun c => 0 <= digit_value c <= 9) (put_dec fuel n acc).
Proof.
  induction fuel as [|fuel IH]; intros n acc Hacc; cbn [put_dec].
  - exact Hacc.
  - pose proof (Z.mod_pos_bound n 10 ltac:(lia)) as Hm.
    assert (Forall (fun c => 0 <= digit_value c <= 9)
              (digit (n mod 10) :: acc)).
    { constructor; [|exact Hacc]. rewrite digit_value_digit; lia. }
    destruct (n / 10 =? 0); [assumption | now apply IH].
Qed.

End Digits.

(** X9: the text a stored write leaves can be read back.  It is the
    caller's string, then " (", then between 1 and 20 decimal digits whose
    value is [len], then " letters)": the number shown is the length the
    caller asked for, not the number of bytes taken from its string. *)
Theorem dev_write_text_shows_len
  (st st' : chardev) (buffer : list byte) (len : Z) :
  slot_inv st ->
  0 <= len < 2 ^ 64 ->
  fst (dev_write st buffer len) = Stored st' ->
  exists digits,
    valid_bytes st'
      = c_str buffer ++ bytes " (" ++ digits ++ bytes " letters)" /\
    dec_value digits = len /\
    Forall (fun c => 0 <= digit_value c <= 9) digits /\
    (1 <= length digits <= 20)%nat.
Proof.
  intros Hinv Hlen Hw.
  destruct (dev_write_inv st st' buffer len Hinv Hw) as [_ Hvalid].
  exists (decimal len). split; [exact Hvalid|].
  split; [now apply decimal_value|].
  split; [apply put_dec_digits; constructor | apply decimal_length].
Qed.

Lemma dev_write_text_shows_len_witness :
  let st' := slot_holding (bytes "ab (1000 letters)") in
  slot_inv module_loaded /\
  0 <= 1000 < 2 ^ 64 /\
  fst (dev_write module_loaded (bytes "ab" ++ [NUL]) 1000) = Stored st' /\
  exists digits,
    valid_bytes st'
      = c_str (bytes "ab" ++ [NUL]) ++ bytes " (" ++ digits
        ++ bytes " letters)" /\
    dec_value digits = 1000 /\
    Forall (fun c => 0 <= digit_value c <= 9) digits /\
    (1 <= length digits <= 20)%nat.
Proof.
  intros st'.
  assert (Hlen : 0 <= 1000 < 2 ^ 64) by lia.
  assert (Hw : fst (dev_write module_loaded (bytes "ab" ++ [NUL]) 1000)
               = Stored st') by (vm_compute; reflexivity).
  split; [exact module_loaded_inv|]. split; [exact Hlen|].
  split; [exact Hw|].
  exact (dev_write_text_shows_len module_loaded st' (bytes "ab" ++ [NUL]) 1000
           module_loaded_inv Hlen Hw).
Defined.

(** ** Further properties of loading and unloading *)

Section InitPaths.

Variable k : kernel.
Variable w : world.

Let major : Z := to_int (register_chrdev_answer k).
Let cls : Z := to_ulong (class_create_answer k).
Let dev : Z := to_ulong (device_create_answer k).

(** The four ways through [chardev_init]. *)
Lemma chardev_init_cases :
  (major < 0 /\
   chardev_init k w =
   (major,
    mkWorld (set_major_num major (globals w))
      (calls w ++ [RegisterChrdev 0 DEVICE_NAME]))) \/
  (0 <= major /\ IS_ERR cls = true /\
   chardev_init k w =
   (to_int (PTR_ERR cls),
    mkWorld (set_chardev_class cls (set_major_num major (globals w)))
      (calls w ++ [RegisterChrdev 0 DEVICE_NAME]
               ++ [ClassCreate CLASS_NAME]
               ++ [UnregisterChrdev major DEVICE_NAME]))) \/
  (0 <= major /\ IS_ERR cls = false /\ IS_ERR dev = true /\
   chardev_init k w =
   (to_int (PTR_ERR dev),
    mkWorld (set_chardev_device dev
               (set_chardev_class cls (set_major_num major (globals w))))
      (calls w ++ [RegisterChrdev 0 DEVICE_NAME]
               ++ [ClassCreate CLASS_NAME]
               ++ [DeviceCreate cls (MKDEV major 0) DEVICE_NAME]
               ++ [ClassDestroy cls]
               ++ [UnregisterChrdev major DEVICE_NAME]))) \/
  (0 <= major /\ IS_ERR cls = false /\ IS_ERR dev = false /\
   chardev_init k w =
   (0,
    mkWorld (set_chardev_device dev
               (set_chardev_class cls (set_major_num major (globals w))))
      (calls w ++ [RegisterChrdev 0 DEVICE_NAME]
               ++ [ClassCreate CLASS_NAME]
               ++ [DeviceCreate cls (MKDEV major 0) DEVICE_NAME]))).
Proof.
  destruct (Z.lt_ge_cases major 0) as [Hneg|Hpos].
  - left. split; [exact Hneg|]. now apply chardev_init_no_major.
  - right. destruct (IS_ERR cls) eqn:Hcls.
    + left. split; [exact Hpos|]. split; [reflexivity|].
      now apply chardev_init_no_class.
    + right. destruct (IS_ERR dev) eqn:Hdev.
      * left. repeat (split; [first [assumption | reflexivity]|]).
        now apply chardev_init_no_device.
      * right. repeat (split; [first [assumption | reflexivity]|]).
        now apply chardev_init_registered.
Qed.

End InitPaths.

Section DeviceNumber.

(** For the major numbers that fit 12 bits the device number holds the
    major number above 20 zero bits of minor number. *)
Lemma MKDEV_minor_zero (ma : Z) :
  0 <= ma < 4096 ->
  MKDEV ma 0 = ma * 2 ^ 20 /\
  Z.shiftr (MKDEV ma 0) MINORBITS = ma /\
  Z.land (MKDEV ma 0) (2 ^ MINORBITS - 1) = 0.
Proof.
  intros Hma.
  assert (Hval : MKDEV ma 0 = ma * 2 ^ 20).
  { unfold MKDEV, to_dev_t, wrap_unsigned, MINORBITS.
    rewrite Z.lor_0_r, Z.shiftl_mul_pow2 by lia.
    apply Z.mod_small. lia. }
  rewrite Hval. unfold MINORBITS. split; [reflexivity|]. split.
  - rewrite Z.shiftr_div_pow2 by lia. apply Z.div_mul. lia.
  - change (2 ^ 20 - 1) with (Z.ones 20).
    rewrite Z.land_ones by lia. apply Z.mod_mul. lia.
Qed.

(** From 4096 on the high bits of the major number are lost. *)
Lemma MKDEV_4096 : MKDEV 4096 0 = 0.
Proof. reflexivity. Qed.

End DeviceNumber.

(** X10: when [register_chrdev] fails, [chardev_init] returns the negative
    value it got and has made no other call: no class and no device were
    asked for, nothing is released, and the class and device pointers the
    module keeps are untouched. *)
Theorem chardev_init_register_fails (k : kernel) (w : world) :
  to_int (register_chrdev_answer k) < 0 ->
  fst (chardev_init k w) = to_int (register_chrdev_answer k) /\
  calls (snd (chardev_init k w)) = calls w ++ [RegisterChrdev 0 DEVICE_NAME] /\
  chardev_class (globals (snd (chardev_init k w)))
    = chardev_class (globals w) /\
  chardev_device (globals (snd (chardev_init k w)))
    = chardev_device (globals w).
Proof.
  intros Hneg. rewrite (chardev_init_no_major k w Hneg).
  repeat split.
Qed.

Lemma chardev_init_register_fails_witness :
  let k := mkKernel (- 16) 0 0 in
  let w := mkWorld module_loaded [] in
  to_int (register_chrdev_answer k) < 0 /\
  fst (chardev_init k w) = - 16 /\
  calls (snd (chardev_init k w)) = [RegisterChrdev 0 DEVICE_NAME].
Proof.
  intros k w.
  assert (Hneg : to_int (register_chrdev_answer k) < 0) by reflexivity.
  destruct (chardev_init_register_fails k w Hneg) as (Hret & Hcalls & _).
  split; [exact Hneg|]. split; [exact Hret | exact Hcalls].
Defined.

(** X11: when the three steps succeed, [chardev_init] returns 0 after
    exactly three calls, registration, class creation and device creation
    with the class just created and device number MKDEV(major, 0) as the
    32-bit [dev_t] the kernel receives, in that order and with no release
    among them; the module keeps the major number, the class and the
    device it was given. *)
Theorem chardev_init_succeeds (k : kernel) (w : world) :
  let major := to_int (register_chrdev_answer k) in
  let cls := to_ulong (class_create_answer k) in
  let dev := to_ulong (device_create_answer k) in
  0 <= major ->
  IS_ERR cls = false ->
  IS_ERR dev = false ->
  fst (chardev_init k w) = 0 /\
  calls (snd (chardev_init k w)) =
    calls w ++ [RegisterChrdev 0 DEVICE_NAME; ClassCreate CLASS_NAME;
                DeviceCreate cls (MKDEV major 0) DEVICE_NAME] /\
  major_num (globals (snd (chardev_init k w))) = major /\
  chardev_class (globals (snd (chardev_init k w))) = cls /\
  chardev_device (globals (snd (chardev_init k w))) = dev.
Proof.
  intros major cls dev Hmajor Hcls Hdev.
  rewrite (chardev_init_registered k w Hmajor Hcls Hdev).
  repeat split.
Qed.

Lemma chardev_init_succeeds_witness :
  let k := mkKernel 250 18446612682070000000 18446612682070004096 in
  let w := mkWorld module_loaded [] in
  0 <= to_int (register_chrdev_answer k) /\
  IS_ERR (to_ulong (class_create_answer k)) = false /\
  IS_ERR (to_ulong (device_create_answer k)) = false /\
  fst (chardev_init k w) = 0 /\
  calls (snd (chardev_init k w)) =
    [RegisterChrdev 0 DEVICE_NAME; ClassCreate CLASS_NAME;
     DeviceCreate 18446612682070000000 (MKDEV 250 0) DEVICE_NAME] /\
  major_num (globals (snd (chardev_init k w))) = 250.
Proof.
  intros k w.
  assert (Hmajor : 0 <= to_int (register_chrdev_answer k))
    by (vm_compute; discriminate).
  assert (Hcls : IS_ERR (to_ulong (class_create_answer k)) = false)
    by reflexivity.
  assert (Hdev : IS_ERR (to_ulong (device_create_answer k)) = false)
    by reflexivity.
  destruct (chardev_init_succeeds k w Hmajor Hcls Hdev)
    as (Hret & Hcalls & Hnum & _).
  repeat (split; [assumption|]). exact Hnum.
Defined.

(** X12: [chardev_init] returns 0 exactly when the three steps succeeded;
    whatever the kernel answers, any other value it returns is a negative
    [int]. *)
Theorem chardev_init_result (k : kernel) (w : world) :
  let major := to_int (register_chrdev_answer k) in
  let cls := to_ulong (class_create_answer k) in
  let dev := to_ulong (device_create_answer k) in
  (fst (chardev_init k w) = 0 <->
   0 <= major /\ IS_ERR cls = false /\ IS_ERR dev = false) /\
  (fst (chardev_init k w) <> 0 ->
   - 2 ^ 31 <= fst (chardev_init k w) < 0).
Proof.
  intros major cls dev. subst major cls dev.
  pose proof (to_int_range (register_chrdev_answer k)) as Hrange.
  destruct (chardev_init_cases k w)
    as [(Hneg & ->) | [(Hpos & Hcls & ->) | [(Hpos & Hcls & Hdev & ->)
       | (Hpos & Hcls & Hdev & ->)]]];
    cbn [fst].
  - split; [split; [lia | intros (H & _); lia] | lia].
  - pose proof (PTR_ERR_errno k (class_create_answer k) Hcls) as He.
    unfold MAX_ERRNO in He.
    split; [split; [lia | intros (_ & H & _); congruence] | lia].
  - pose proof (PTR_ERR_errno k (device_create_answer k) Hdev) as He.
    unfold MAX_ERRNO in He.
    split; [split; [lia | intros (_ & _ & H); congruence] | lia].
  - split; [split; [auto | reflexivity] | congruence].
Qed.

Lemma chardev_init_result_witness :
  let k := mkKernel 250 18446612682070000000 (- 12) in
  let w := mkWorld module_loaded [] in
  fst (chardev_init k w) <> 0 /\
  - 2 ^ 31 <= fst (chardev_init k w) < 0.
Proof.
  intros k w.
  assert (Hr : fst (chardev_init k w) <> 0) by discriminate.
  split; [exact Hr|].
  exact (proj2 (chardev_init_result k w) Hr).
Defined.

(** X13: on none of its paths does [chardev_init] touch the message slot
    or the open counter: the array, the valid length and the counter are
    after the call what they were before, whatever the kernel answers. *)
Theorem chardev_init_keeps_slot (k : kernel) (w : world) :
  message (globals (snd (chardev_init k w))) = message (globals w) /\
  size_of_message (globals (snd (chardev_init k w)))
    = size_of_message (globals w) /\
  open_num (globals (snd (chardev_init k w))) = open_num (globals w).
Proof.
  destruct (chardev_init_cases k w)
    as [(_ & ->) | [(_ & _ & ->) | [(_ & _ & _ & ->) | (_ & _ & _ & ->)]]];
    repeat split.
Qed.

(** X14: unloading after a successful load undoes the three steps, last
    one first and each with what the load was given: the device is
    destroyed under the class and device number (MKDEV(major, 0) as a
    32-bit [dev_t]) it was created with, the
    class is unregistered and destroyed, and the major number that was
    allocated is released; the module's globals are left as they are. *)
Theorem chardev_exit_undoes_init (k : kernel) (w : world) :
  let major := to_int (register_chrdev_answer k) in
  let cls := to_ulong (class_create_answer k) in
  let dev := to_ulong (device_create_answer k) in
  0 <= major ->
  IS_ERR cls = false ->
  IS_ERR dev = false ->
  let w1 := snd (chardev_init k w) in
  calls (snd (chardev_exit w1)) =
    calls w ++ [RegisterChrdev 0 DEVICE_NAME; ClassCreate CLASS_NAME;
                DeviceCreate cls (MKDEV major 0) DEVICE_NAME;
                DeviceDestroy cls (MKDEV major 0);
                ClassUnregister cls; ClassDestroy cls;
                UnregisterChrdev major DEVICE_NAME] /\
  globals (snd (chardev_exit w1)) = globals w1.
Proof.
  intros major cls dev Hmajor Hcls Hdev w1. unfold w1.
  rewrite (chardev_init_registered k w Hmajor Hcls Hdev). cbn [snd].
  rewrite chardev_exit_calls. cbn [snd calls globals].
  cbn [chardev_class major_num set_chardev_device set_chardev_class
       set_major_num].
  split; [|reflexivity]. now rewrite <- !app_assoc.
Qed.

Lemma chardev_exit_undoes_init_witness :
  let k := mkKernel 250 18446612682070000000 18446612682070004096 in
  let w := mkWorld module_loaded [] in
  0 <= to_int (register_chrdev_answer k) /\
  IS_ERR (to_ulong (class_create_answer k)) = false /\
  IS_ERR (to_ulong (device_create_answer k)) = false /\
  calls (snd (chardev_exit (snd (chardev_init k w)))) =
    [RegisterChrdev 0 DEVICE_NAME; ClassCreate CLASS_NAME;
     DeviceCreate 18446612682070000000 (MKDEV 250 0) DEVICE_NAME;
     DeviceDestroy 18446612682070000000 (MKDEV 250 0);
     ClassUnregister 18446612682070000000;
     ClassDestroy 18446612682070000000;
     UnregisterChrdev 250 DEVICE_NAME].
Proof.
  intros k w.
  assert (Hmajor : 0 <= to_int (register_chrdev_answer k))
    by (vm_compute; discriminate).
  assert (Hcls : IS_ERR (to_ulong (class_create_answer k)) = false)
    by reflexivity.
  assert (Hdev : IS_ERR (to_ulong (device_create_answer k)) = false)
    by reflexivity.
  split; [exact Hmajor|]. split; [exact Hcls|]. split; [exact Hdev|].
  exact (proj1 (chardev_exit_undoes_init k w Hmajor Hcls Hdev)).
Defined.
